(** * Payment settlement, deposit limit and paid-job aggregation

    A shallow embedding of the request handlers of [src/app.js]
    (GET /contracts/:id, GET /contracts, GET /jobs/unpaid,
    POST /jobs/:job_id/pay, POST /balances/deposit,
    GET /admin/best-profession, GET /admin/best-clients) over an explicit
    model of the three tables they query, and the properties of the
    design document checked against it.

    Conventions of the model.
    - A number of the language and a stored amount is an IEEE 754 double.
      A finite double is a rational, so amounts are values of [Q]; what the
      program computes from them (a difference, a sum, a quotient, the
      value of a decimal literal) is the exact result rounded to a double.
      The handlers are written over an interface [Engine] that gives the
      rounding and the ORDER BY of the engine with the laws the proofs
      use; [Binary64] implements it in double precision and is the engine
      of every sample run.  An infinite amount can be the value of a query
      parameter ([Js.num]) but not a stored amount or a sum.
    - A string is the sequence of the bytes of its UTF-8 encoding.
    - A table is a finite map from primary key to row; a scan visits the
      rows in ascending key order.
    - Requests are handled one at a time.  A transaction body is a
      function from the store to either a thrown value or a result with
      the updated store; [transaction] restores the initial store when the
      body throws.
    - The engine behind the ORM is SQLite, whose result shapes the
      handlers rely on (the count of changed rows read from an update).
    - Row timestamps ([createdAt], [updatedAt]) are left out. *)

From Stdlib Require Import ZArith QArith Qround Lqa String Ascii List.
From stdpp Require Import gmap strings list fin_maps sorting.

Local Open Scope Z_scope.

(** ** JavaScript numbers and the two parsing builtins the handlers call *)

Module Js.

(** A number as the handlers see it: not-a-number, the two infinities, or
    a finite value. *)
Inductive num : Type :=
| NaN
| PInf
| NInf
| Fin (q : Q).

(** [a > b] on numbers: false whenever either side is [NaN]. *)
Definition gt (a b : num) : bool :=
  match a, b with
  | NaN, _ | _, NaN => false
  | PInf, PInf => false
  | PInf, _ => true
  | _, PInf => false
  | NInf, _ => false
  | Fin _, NInf => true
  | Fin x, Fin y => negb (Qle_bool x y)
  end.

(** [a < b] on finite values. *)
Definition Qltb (x y : Q) : bool := negb (Qle_bool y x).

(** *** Rounding to a double *)

(** The pair [(n', d')] with [n' / d' = (n / d) / 2 ^ k]. *)
Definition scale2 (n d k : Z) : Z * Z :=
  if 0 <=? k then (n, d * 2 ^ k) else (n * 2 ^ (- k), d).

(** The integer nearest to [p / q], the even one of the two when [p / q]
    lies half way ([p >= 0], [q > 0]). *)
Definition rne (p q : Z) : Z :=
  let f := p / q in
  match (2 * (p mod q)) ?= q with
  | Lt => f
  | Gt => f + 1
  | Eq => if Z.even f then f else f + 1
  end.

(** The exponent [e] with [2 ^ e <= n / d < 2 ^ (e + 1)] ([n, d > 0]). *)
Definition ilog2 (n d : Z) : Z :=
  let e0 := Z.log2 n - Z.log2 d in
  let '(n', d') := scale2 n d e0 in
  if d' <=? n' then e0 else e0 - 1.

(** The double nearest to [n / d > 0], as [r * 2 ^ k]: 53 significant
    bits, fewer below [2 ^ -1022], where the spacing stays [2 ^ -1074]. *)
Definition nearest (n d : Z) : Z * Z :=
  let k := Z.max (ilog2 n d) (-1022) - 52 in
  let '(n', d') := scale2 n d k in
  (rne n' d', k).

Definition of_pow2 (r k : Z) : Q :=
  if 0 <=? k then inject_Z (r * 2 ^ k) else Qred (r # Z.to_pos (2 ^ (- k))).

Definition nearest_positive (n : positive) (d : positive) : Q :=
  let '(r, k) := nearest (Zpos n) (Zpos d) in of_pow2 r k.

(** The exact value [x] rounded to the nearest double, to the even one of
    two that are equally near; the exponent is not bounded above. *)
Definition nearest_double (x : Q) : Q :=
  match Qnum x with
  | Z0 => 0%Q
  | Zpos n => nearest_positive n (Qden x)
  | Zneg n => Qopp (nearest_positive n (Qden x))
  end.

(** The number for the exact value [x]: the nearest double, an infinity
    when that is [2 ^ 1024] or more in magnitude. *)
Definition to_number (x : Q) : num :=
  let y := nearest_double x in
  if Qle_bool (inject_Z (2 ^ 1024)) y then PInf
  else if Qle_bool y (inject_Z (- 2 ^ 1024)) then NInf
  else Fin y.

(** *** Parsing *)

(** White space and line terminators of the language, skipped at the
    start of a numeric string: the one-byte ones, and those whose
    encoding takes two bytes (U+00A0) or three (U+1680, U+2000 to U+200A,
    U+2028, U+2029, U+202F, U+205F, U+3000, U+FEFF). *)
Definition is_space (c : ascii) : bool :=
  let n := Z.of_nat (nat_of_ascii c) in
  (n =? 32) || ((9 <=? n) && (n <=? 13)).

Definition is_space2 (c1 c2 : ascii) : bool :=
  let a := Z.of_nat (nat_of_ascii c1) in
  let b := Z.of_nat (nat_of_ascii c2) in
  (a =? 194) && (b =? 160).

Definition is_space3 (c1 c2 c3 : ascii) : bool :=
  let a := Z.of_nat (nat_of_ascii c1) in
  let b := Z.of_nat (nat_of_ascii c2) in
  let c := Z.of_nat (nat_of_ascii c3) in
  ((a =? 225) && (b =? 154) && (c =? 128)) ||
  ((a =? 226) && (b =? 128) &&
   (((128 <=? c) && (c <=? 138)) || (c =? 168) || (c =? 169) || (c =? 175))) ||
  ((a =? 226) && (b =? 129) && (c =? 159)) ||
  ((a =? 227) && (b =? 128) && (c =? 128)) ||
  ((a =? 239) && (b =? 187) && (c =? 191)).

Fixpoint trim_start (s : list ascii) : list ascii :=
  match s with
  | c1 :: r1 =>
      if is_space c1 then trim_start r1
      else
        match r1 with
        | c2 :: r2 =>
            if is_space2 c1 c2 then trim_start r2
            else
              match r2 with
              | c3 :: r3 => if is_space3 c1 c2 c3 then trim_start r3 else s
              | [] => s
              end
        | [] => s
        end
  | [] => []
  end.

Definition digit_of (radix : Z) (c : ascii) : option Z :=
  let n := Z.of_nat (nat_of_ascii c) in
  let v :=
    if (48 <=? n) && (n <=? 57) then Some (n - 48)
    else if (97 <=? n) && (n <=? 122) then Some (n - 87)
    else if (65 <=? n) && (n <=? 90) then Some (n - 55)
    else None in
  match v with
  | Some d => if d <? radix then Some d else None
  | None => None
  end.

(** The longest prefix of digits in the given radix, and the rest. *)
Fixpoint span_digits (radix : Z) (s : list ascii) : list Z * list ascii :=
  match s with
  | c :: r =>
      match digit_of radix c with
      | Some d => let '(ds, rest) := span_digits radix r in (d :: ds, rest)
      | None => ([], s)
      end
  | [] => ([], [])
  end.

Definition digits_value (radix : Z) (ds : list Z) : Z :=
  fold_left (fun acc d => acc * radix + d) ds 0.

(** An optional sign: its factor and the rest of the string. *)
Definition strip_sign (s : list ascii) : Z * list ascii :=
  match s with
  | "-"%char :: r => (-1, r)
  | "+"%char :: r => (1, r)
  | _ => (1, s)
  end.

(** The integer that [parseInt(string)], with no radix argument, reads:
    the signed value of the longest prefix of digits, [None] when there
    is no digit. *)
Definition integer_prefix (str : string) : option Z :=
  let s := trim_start (list_ascii_of_string str) in
  let '(sign, s) := strip_sign s in
  let '(radix, s) :=
    match s with
    | "0"%char :: "x"%char :: r | "0"%char :: "X"%char :: r => (16, r)
    | _ => (10, s)
    end in
  match span_digits radix s with
  | ([], _) => None
  | (ds, _) => Some (sign * digits_value radix ds)
  end.

(** [parseInt(string)]: the number for that integer, [NaN] when there is
    none. *)
Definition parseInt (str : string) : num :=
  match integer_prefix str with
  | Some n => to_number (inject_Z n)
  | None => NaN
  end.

Fixpoint starts_with (p s : list ascii) : bool :=
  match p, s with
  | [], _ => true
  | a :: p', b :: s' => if Ascii.eqb a b then starts_with p' s' else false
  | _ :: _, [] => false
  end.

(** The exponent part [e], [e+] or [e-] followed by digits; [0] when the
    string does not continue with a well-formed exponent. *)
Definition exponent_of (s : list ascii) : Z :=
  match s with
  | c :: r =>
      if Ascii.eqb c "e" || Ascii.eqb c "E" then
        let '(sign, r) := strip_sign r in
        match span_digits 10 r with
        | ([], _) => 0
        | (ds, _) => sign * digits_value 10 ds
        end
      else 0
  | [] => 0
  end.

(** [parseFloat(string)]: the number for the value of the longest prefix
    that is a decimal literal, [NaN] when there is none. *)
Definition parseFloat (str : string) : num :=
  let s := trim_start (list_ascii_of_string str) in
  let '(sign, s) := strip_sign s in
  if starts_with (list_ascii_of_string "Infinity") s then
    (if sign <? 0 then NInf else PInf)
  else
    let '(ip, r1) := span_digits 10 s in
    let '(fp, r2) :=
      match r1 with
      | "."%char :: r => span_digits 10 r
      | _ => ([], r1)
      end in
    match ip, fp with
    | [], [] => NaN
    | _, _ =>
        let m := sign * digits_value 10 (ip ++ fp) in
        let e := exponent_of r2 - Z.of_nat (length fp) in
        to_number (inject_Z m * Qpower (10 # 1) e)
    end.

(** A query parameter that may be absent: [parseFloat(undefined)] is
    [NaN]. *)
Definition parseFloat_param (p : option string) : num :=
  match p with
  | Some str => parseFloat str
  | None => NaN
  end.

(** The finite double that a decimal literal denotes. *)
Definition double (literal : string) : Q :=
  match parseFloat literal with
  | Fin q => q
  | _ => 0%Q
  end.

End Js.
(** ** Data model *)

Inductive ProfileType : Type := client | contractor.
Inductive ContractStatus : Type := new | in_progress | terminated.

#[global] Instance ProfileType_eq_dec : EqDecision ProfileType.
Proof. solve_decision. Defined.
#[global] Instance ContractStatus_eq_dec : EqDecision ContractStatus.
Proof. solve_decision. Defined.

(** Modelled from the spec: the three record types, declared in the
    model module that the handlers import ([require('./model')]) and that
    is not part of the handlers' file.  The primary key [id] of a row is
    its key in the table; [paid] is a nullable boolean, as the handlers'
    [paid IS NOT true] tests allow. *)
Record Profile : Type := {
  firstName : string;
  lastName : string;
  profession : string;
  balance : Q;
  type : ProfileType }.

Record Contract : Type := {
  terms : string;
  status : ContractStatus;
  ClientId : Z;
  ContractorId : Z }.

Record Job : Type := {
  description : string;
  price : Q;
  paid : option bool;
  paymentDate : option Z;
  ContractId : Z }.

(** The store: one table per model. *)
Record DB : Type := {
  Profiles : gmap Z Profile;
  Contracts : gmap Z Contract;
  Jobs : gmap Z Job }.

Definition set_balance (b : Q) (p : Profile) : Profile :=
  {| firstName := firstName p; lastName := lastName p;
     profession := profession p; balance := b; type := type p |}.

Definition set_paid (d : Z) (j : Job) : Job :=
  {| description := description j; price := price j;
     paid := Some true; paymentDate := Some d; ContractId := ContractId j |}.

Definition with_Profiles (ps : gmap Z Profile) (s : DB) : DB :=
  {| Profiles := ps; Contracts := Contracts s; Jobs := Jobs s |}.

Definition with_Jobs (js : gmap Z Job) (s : DB) : DB :=
  {| Profiles := Profiles s; Contracts := Contracts s; Jobs := js |}.

(** [paid: { [not]: true }], that is [paid IS NOT true]. *)
Definition not_paid (j : Job) : bool :=
  match paid j with
  | Some true => false
  | _ => true
  end.

(** [paid: true]. *)
Definition is_paid (j : Job) : bool := negb (not_paid j).

(** ** Responses *)

#[warnings="-register-all"]
Inductive json : Type :=
| JNull
| JBool (b : bool)
| JNum (q : Q)
| JStr (s : string)
| JArr (l : list json)
| JObj (fields : list (string * json)).

Definition JInt (z : Z) : json := JNum (inject_Z z).

Definition json_option {A} (f : A -> json) (o : option A) : json :=
  match o with
  | Some a => f a
  | None => JNull
  end.

Definition json_of_type (t : ProfileType) : json :=
  JStr (match t with client => "client" | contractor => "contractor" end).

Definition json_of_status (st : ContractStatus) : json :=
  JStr (match st with
        | new => "new" | in_progress => "in_progress" | terminated => "terminated"
        end).

Definition Profile_fields (id : Z) (p : Profile) : list (string * json) :=
  [("id", JInt id); ("firstName", JStr (firstName p));
   ("lastName", JStr (lastName p)); ("profession", JStr (profession p));
   ("balance", JNum (balance p)); ("type", json_of_type (type p))]%string.

Definition Contract_fields (id : Z) (c : Contract) : list (string * json) :=
  [("id", JInt id); ("terms", JStr (terms c)); ("status", json_of_status (status c));
   ("ClientId", JInt (ClientId c)); ("ContractorId", JInt (ContractorId c))]%string.

Definition Job_fields (id : Z) (j : Job) : list (string * json) :=
  [("id", JInt id); ("description", JStr (description j)); ("price", JNum (price j));
   ("paid", json_option JBool (paid j)); ("paymentDate", json_option JInt (paymentDate j));
   ("ContractId", JInt (ContractId j))]%string.

(** The first field of that name in an object. *)
Fixpoint field (name : string) (fields : list (string * json)) : option json :=
  match fields with
  | (k, v) :: r => if String.eqb k name then Some v else field name r
  | [] => None
  end.

(** An error raised by the library or the engine rather than thrown by a
    handler: such a value has no [code] property. *)
Inductive LibraryError : Type :=
| QueryRejected
| InstanceNotReloaded.

Inductive Thrown : Type :=
| Obj (code : Z) (message : string)
| Raised (e : LibraryError).

Inductive Body : Type :=
| Empty
| Text (msg : string)
| ErrorText (e : LibraryError)
| Json (j : json).

Record Response : Type := { statusCode : Z; body : Body }.

(** [res.status(c).end(msg)], [res.status(c).end()] and [res.json(v)]. *)
Definition end_with (c : Z) (msg : string) : Response := {| statusCode := c; body := Text msg |}.
Definition end_empty (c : Z) : Response := {| statusCode := c; body := Empty |}.
Definition send_json (v : json) : Response := {| statusCode := 200; body := Json v |}.

(** The [catch] clause shared by the two mutating handlers:
    [res.status(error?.code ?? 500).end(error?.message ?? 'Unknown error')]. *)
Definition catch_response (e : Thrown) : Response :=
  match e with
  | Obj c m => end_with c m
  | Raised err => {| statusCode := 500; body := ErrorText err |}
  end.

(** Outcome categories of the design document, by the status that
    conventionally carries each: success 200, forbidden 403, not found 404,
    conflict 409, bad input 400, internal error 500. *)
Definition succeeded (r : Response) : Prop := statusCode r = 200.
Definition Forbidden (r : Response) : Prop := statusCode r = 403.
Definition NotFound (r : Response) : Prop := statusCode r = 404.
Definition Conflict (r : Response) : Prop := statusCode r = 409.
Definition InvalidArgument (r : Response) : Prop := statusCode r = 400.
Definition InternalError (r : Response) : Prop := statusCode r = 500.

Definition msg_insufficient : string := "Balance is not sufficient".
Definition msg_deposit_limit : string :=
  "You can only deposit up to 25% of total unpaid jobs amount".

Definition InsufficientFunds (r : Response) : Prop := r = end_with 409 msg_insufficient.
Definition DepositLimitExceeded (r : Response) : Prop := r = end_with 409 msg_deposit_limit.

(** ** Transactions *)

(** A transaction body: it reads and updates the store, and either
    returns or throws. *)
Definition Tx (A : Type) : Type := DB -> Thrown + (A * DB).

Definition ret {A} (a : A) : Tx A := fun s => inr (a, s).
Definition throw {A} (e : Thrown) : Tx A := fun _ => inl e.
Definition bind {A B} (m : Tx A) (k : A -> Tx B) : Tx B :=
  fun s =>
    match m s with
    | inl e => inl e
    | inr (a, s') => k a s'
    end.

#[global] Instance Tx_ret : MRet Tx := @ret.
#[global] Instance Tx_bind : MBind Tx := fun A B k m => bind m k.

(** [sequelize.transaction(body)]: commit when the body returns, roll
    back to the initial store and rethrow when it throws. *)
Definition transaction {A} (body : Tx A) (s : DB) : (Thrown + A) * DB :=
  match body s with
  | inl e => (inl e, s)
  | inr (a, s') => (inr a, s')
  end.

(** ** The engine's arithmetic and ordering *)

(** What the handlers take from the engine and from the arithmetic of the
    language, both of which compute in doubles: [fl x] is the double
    stored or returned for the exact result [x] of one operation, and
    [order_desc key l] is [l] under [ORDER BY key DESC].  The laws are
    those of any such engine: rounding does not take a result that is not
    negative below zero, and ordering permutes the rows so that the keys
    never increase (the order of rows with equal keys is left open). *)
Class Engine : Type := {
  fl : Q -> Q;
  fl_nonneg : forall x, (0 <= x)%Q -> (0 <= fl x)%Q;
  order_desc : forall {A : Type}, (A -> Q) -> list A -> list A;
  order_desc_Permutation : forall {A : Type} (key : A -> Q) (l : list A),
    order_desc key l ≡ₚ l;
  order_desc_sorted : forall {A : Type} (key : A -> Q) (l : list A),
    StronglySorted (fun x y => (key y <= key x)%Q) (order_desc key l) }.

(** The ordering of the engine in double precision: insertion of each row
    before the first row with a smaller key, so that of two rows with
    equal keys the one met later comes first. *)
Fixpoint insert_desc {A} (key : A -> Q) (x : A) (l : list A) : list A :=
  match l with
  | [] => [x]
  | y :: r =>
      if Js.Qltb (key y) (key x) then x :: l else y :: insert_desc key x r
  end.

Definition insertion_desc {A} (key : A -> Q) (l : list A) : list A :=
  foldr (insert_desc key) [] l.

(** ** Sample stores *)

Module Fixture.

Definition profile (t : ProfileType) (name prof : string) (b : Q) : Profile :=
  {| firstName := name; lastName := "Doe"; profession := prof; balance := b; type := t |}.

Definition contract (st : ContractStatus) (cl co : Z) : Contract :=
  {| terms := "terms"; status := st; ClientId := cl; ContractorId := co |}.

Definition unpaid_job (p : Q) (c : Z) : Job :=
  {| description := "work"; price := p; paid := None; paymentDate := None; ContractId := c |}.

Definition paid_job (p : Q) (d : Z) (c : Z) : Job :=
  {| description := "work"; price := p; paid := Some true; paymentDate := Some d;
     ContractId := c |}.

(** A client (1) with balance 100 and a contractor (2); contract 2 names a
    contractor (7) that has no profile. *)
Definition open_work : DB :=
  {| Profiles := {[ 1 := profile client "Harry" "Wizard" 100;
                    2 := profile contractor "John" "Programmer" 5 ]};
     Contracts := {[ 1 := contract in_progress 1 2;
                     2 := contract in_progress 1 7 ]};
     Jobs := {[ 1 := unpaid_job 40 1;
                2 := unpaid_job 30 2;
                3 := unpaid_job 130 1 ]} |}.


(** A client (1) whose balance is the double written [b], a contractor
    (2) with the double 0.2, and two unpaid jobs whose prices are the
    doubles written [p1] and [p2]. *)
Definition fractions (b p1 p2 : string) : DB :=
  {| Profiles := {[ 1 := profile client "Harry" "Wizard" (Js.double b);
                    2 := profile contractor "John" "Programmer" (Js.double "0.2") ]};
     Contracts := {[ 1 := contract in_progress 1 2 ]};
     Jobs := {[ 1 := unpaid_job (Js.double p1) 1;
                2 := unpaid_job (Js.double p2) 1 ]} |}.

(** A client (1) with balance 100 and no job. *)
Definition no_work : DB :=
  {| Profiles := {[ 1 := profile client "Harry" "Wizard" 100 ]};
     Contracts := ∅;
     Jobs := ∅ |}.

(** Paid jobs by profession: A earned 100 + 50, B earned 120. *)
Definition paid_by_profession : DB :=
  {| Profiles := {[ 1 := profile client "X" "none" 0;
                    2 := profile contractor "Ann" "A" 0;
                    3 := profile contractor "Bob" "B" 0;
                    4 := profile contractor "Cid" "A" 0 ]};
     Contracts := {[ 1 := contract terminated 1 2;
                     2 := contract terminated 1 3;
                     3 := contract terminated 1 4 ]};
     Jobs := {[ 1 := paid_job 100 10 1;
                2 := paid_job 120 20 2;
                3 := paid_job 50 30 3 ]} |}.

(** Paid jobs by client: X (1) paid 200, Y (2) paid 300. *)
Definition paid_by_client : DB :=
  {| Profiles := {[ 1 := profile client "X" "none" 0;
                    2 := profile client "Y" "none" 0;
                    3 := profile contractor "Ann" "A" 0 ]};
     Contracts := {[ 1 := contract terminated 1 3;
                     2 := contract terminated 2 3 ]};
     Jobs := {[ 1 := paid_job 200 10 1;
                2 := paid_job 300 20 2 ]} |}.

End Fixture.

(** ** The queries and updates issued by the handlers *)

(** The exact sum of a list of amounts. *)
Definition Qsum (l : list Q) : Q := foldr Qplus 0%Q l.

(** The rows of a table with their keys, in ascending key order. *)
Definition key_le {A} (x y : Z * A) : Prop := x.1 ≤ y.1.

#[global] Instance key_le_dec {A} (x y : Z * A) : Decision (key_le x y).
Proof. unfold key_le. apply _. Defined.

Definition rows {A} (t : gmap Z A) : list (Z * A) :=
  merge_sort key_le (map_to_list t).

(** The include [{ model: Contract, where: { status: 'in_progress',
    ClientId: profileId }, required: true }]: the contract of the job,
    when it passes the filter. *)
Definition include_Contract (profileId : Z) (s : DB) (j : Job) : option Contract :=
  match Contracts s !! ContractId j with
  | Some c =>
      if bool_decide (status c = in_progress) && (ClientId c =? profileId)
      then Some c else None
  | None => None
  end.

(** The nested include [{ model: Profile, as: 'Client', where: { id:
    profileId }, required: true }]. *)
Definition include_Client (profileId : Z) (s : DB) (c : Contract) : option Profile :=
  match Profiles s !! ClientId c with
  | Some p => if ClientId c =? profileId then Some p else None
  | None => None
  end.

Definition Job_with_includes (profileId : Z) (s : DB) (j : Job)
  : option (Job * Contract * Profile) :=
  match include_Contract profileId s j with
  | Some c =>
      match include_Client profileId s c with
      | Some cl => Some (j, c, cl)
      | None => None
      end
  | None => None
  end.

(** [Job.findOne] of the settlement: [where: { id: job_id, paid: { [not]:
    true } }] with the two required includes. *)
Definition find_unpaid_job (profileId job_id : Z) (s : DB)
  : option (Job * Contract * Profile) :=
  match Jobs s !! job_id with
  | Some j => if not_paid j then Job_with_includes profileId s j else None
  | None => None
  end.

Definition Job_findOne_unpaid (profileId job_id : Z)
  : Tx (option (Job * Contract * Profile)) :=
  fun s => inr (find_unpaid_job profileId job_id s, s).

Section Handlers.
Context {E : Engine}.

(** The aggregate [SUM] of the engine over the values met by a scan: each
    value is added to the sum so far, and each addition is rounded. *)
Definition sum_of (l : list Q) : Q :=
  match l with
  | [] => 0%Q
  | x :: r => fold_left (fun acc y => fl (acc + y)%Q) r x
  end.

(** [Profile.decrement({ balance: amount }, { where: { id, balance: {
    [gte]: amount } } })], the statement [SET balance = balance - amount];
    the result is the number of rows changed, which the handler reads as
    [updatedClient]. *)
Definition Profile_decrement (amount : Q) (id : Z) : Tx nat :=
  fun s =>
    match Profiles s !! id with
    | Some p =>
        if Qle_bool amount (balance p)
        then inr (1%nat,
                  with_Profiles (<[id := set_balance (fl (balance p - amount)) p]> (Profiles s)) s)
        else inr (0%nat, s)
    | None => inr (0%nat, s)
    end.

(** [Profile.increment({ balance: amount }, { where: { id } })]; the
    result is the number of rows changed ([updatedContractor]). *)
Definition Profile_increment (amount : Q) (id : Z) : Tx nat :=
  fun s =>
    match Profiles s !! id with
    | Some p =>
        inr (1%nat,
             with_Profiles (<[id := set_balance (fl (balance p + amount)) p]> (Profiles s)) s)
    | None => inr (0%nat, s)
    end.

(** [unpaidJobToPay.paid = true; unpaidJobToPay.paymentDate = new Date();
    unpaidJobToPay.save()]: the two changed columns of that row. *)
Definition Job_save_paid (job_id now : Z) : Tx unit :=
  fun s => inr (tt, with_Jobs (alter (set_paid now) job_id (Jobs s)) s).

Definition PaidJob_json (job_id : Z) (r : Job * Contract * Profile) : json :=
  let '(j, c, cl) := r in
  JObj (Job_fields job_id j ++
        [("Contract"%string,
          JObj (Contract_fields (ContractId j) c ++
                [("Client"%string, JObj (Profile_fields (ClientId c) cl))]))]).

(** [unpaidJobToPay.reload()]: the row of that key with the includes of
    the original query. *)
Definition Job_reload (profileId job_id : Z) : Tx (Job * Contract * Profile) :=
  fun s =>
    match Jobs s !! job_id with
    | Some j =>
        match Job_with_includes profileId s j with
        | Some r => inr (r, s)
        | None => inl (Raised InstanceNotReloaded)
        end
    | None => inl (Raised InstanceNotReloaded)
    end.

(** The body of the settlement transaction. *)
Definition payJob_tx (profileId job_id now : Z) : Tx json :=
  unpaidJobToPay ← Job_findOne_unpaid profileId job_id;
  match unpaidJobToPay with
  | None => throw (Obj 404 "Job not found")
  | Some (j, c, cl) =>
      if Js.Qltb (balance cl) (price j)
      then throw (Obj 409 msg_insufficient)
      else
        updatedClient ← Profile_decrement (price j) (ClientId c);
        match updatedClient with
        | O => throw (Obj 409 msg_insufficient)
        | S _ =>
            updatedContractor ← Profile_increment (price j) (ContractorId c);
            match updatedContractor with
            | O => throw (Obj 500 "Error updating contractor")
            | S _ =>
                Job_save_paid job_id now;;
                r ← Job_reload profileId job_id;
                mret (PaidJob_json job_id r)
            end
        end
  end.

(** Run a transaction and answer: the result as JSON, or the [catch]
    clause. *)
Definition respond (body : Tx json) (s : DB) : Response * DB :=
  match transaction body s with
  | (inr result, s') => (send_json result, s')
  | (inl error, s') => (catch_response error, s')
  end.

(** POST /jobs/:job_id/pay.  [profileId] and [profileType] are the [id]
    and [type] of [req.profile]; [now] is the value of [new Date()]. *)
Definition payJob (s : DB) (profileId : Z) (profileType : ProfileType)
    (job_id now : Z) : Response * DB :=
  if bool_decide (profileType ≠ client)
  then (end_with 403 "Only clients can pay for jobs", s)
  else respond (payJob_tx profileId job_id now) s.

(** The join condition of the exposure sum: unpaid, under a contract that
    is in progress and belongs to the caller. *)
Definition is_exposure (profileId : Z) (s : DB) (j : Job) : bool :=
  not_paid j &&
  match include_Contract profileId s j with Some _ => true | None => false end.

Definition exposure_jobs (profileId : Z) (s : DB) : list Job :=
  List.filter (is_exposure profileId s) (map snd (rows (Jobs s))).

(** [Job.sum('price', ...)]: [null] when no row matches. *)
Definition Job_sum_unpaid (profileId : Z) : Tx (option Q) :=
  fun s =>
    match exposure_jobs profileId s with
    | [] => inr (None, s)
    | js => inr (Some (sum_of (map price js)), s)
    end.

(** [req.profile.increment({ balance: amount })]: an update of the row of
    that key.  A non-finite amount is written into the statement as a bare
    word, which the engine rejects. *)
Definition profile_increment (profileId : Z) (amount : Js.num) : Tx unit :=
  fun s =>
    match amount with
    | Js.Fin a =>
        inr (tt,
             with_Profiles
               (alter (fun p => set_balance (fl (balance p + a)) p) profileId (Profiles s)) s)
    | _ => inl (Raised QueryRejected)
    end.

(** [req.profile.reload()]. *)
Definition profile_reload (profileId : Z) : Tx Profile :=
  fun s =>
    match Profiles s !! profileId with
    | Some p => inr (p, s)
    | None => inl (Raised InstanceNotReloaded)
    end.

(** [x / 4] where [x] is a number or [null]; [null] converts to [0]. *)
Definition div4 (x : option Q) : Js.num :=
  match x with
  | None => Js.Fin 0
  | Some s => Js.Fin (fl (s / 4))
  end.

(** The body of the deposit transaction. *)
Definition deposit_tx (profileId : Z) (depositAmount : Js.num) : Tx json :=
  unpaidJobsPriceSum ← Job_sum_unpaid profileId;
  if Js.gt depositAmount (div4 unpaidJobsPriceSum)
  then throw (Obj 409 msg_deposit_limit)
  else
    profile_increment profileId depositAmount;;
    p ← profile_reload profileId;
    mret (JObj (Profile_fields profileId p)).

(** POST /balances/deposit.  [amount] is [req.query.amount]. *)
Definition deposit (s : DB) (profileId : Z) (profileType : ProfileType)
    (amount : option string) : Response * DB :=
  let depositAmount := Js.parseFloat_param amount in
  if bool_decide (profileType ≠ client)
  then (end_with 403 "Only clients can deposit money", s)
  else respond (deposit_tx profileId depositAmount) s.

(** The exposure of the design document: the exact sum of the prices of
    the caller's unpaid jobs under contracts in progress, [0] when there
    are none. *)
Definition exposure (profileId : Z) (s : DB) : Q :=
  Qsum (map price (exposure_jobs profileId s)).

(** ** Aggregation over paid jobs *)

(** The [where] object of the two aggregation handlers: [paid: true], and
    [paymentDate >= start], [paymentDate <= end] for the bounds that are
    given.  [start] and [end] are the instants [new Date(start)] and [new
    Date(end)] of the query parameters that are present and not empty; a
    comparison with an absent [paymentDate] is not satisfied. *)
Definition whereCondition (start end_ : option Z) (j : Job) : bool :=
  is_paid j &&
  match start with
  | Some a => match paymentDate j with Some d => a <=? d | None => false end
  | None => true
  end &&
  match end_ with
  | Some b => match paymentDate j with Some d => d <=? b | None => false end
  | None => true
  end.

(** A selected job joined with its contract and the profile the contract
    names through [fk]; both includes are required, so a job without them
    yields no row. *)
Definition joined (fk : Contract -> Z) (s : DB) (j : Job) : option (Z * Profile) :=
  match Contracts s !! ContractId j with
  | Some c =>
      match Profiles s !! fk c with
      | Some p => Some (fk c, p)
      | None => None
      end
  | None => None
  end.

Definition selected_jobs (start end_ : option Z) (s : DB) : list Job :=
  List.filter (whereCondition start end_) (map snd (rows (Jobs s))).

(** One group of a [GROUP BY]: its key and the prices of its rows, in
    the order in which the scan met them. *)
Record Group (K : Type) : Type := {
  gkey : K;
  gprices : list Q }.
Arguments gkey {K} _.
Arguments gprices {K} _.

(** [SUM(price)] of a group. *)
Definition total {K} (g : Group K) : Q := sum_of (gprices g).

Section GroupBy.
Context {K : Type} `{EqDecision K}.

Fixpoint add_row (k : K) (j : Job) (gs : list (Group K)) : list (Group K) :=
  match gs with
  | [] => [{| gkey := k; gprices := [price j] |}]
  | g :: r =>
      if decide (gkey g = k)
      then {| gkey := k; gprices := gprices g ++ [price j] |} :: r
      else g :: add_row k j r
  end.

(** Groups in the order in which their first row is met (the language
    of the engine leaves the order of groups open). *)
Definition group_by (rs : list (K * Job)) : list (Group K) :=
  fold_left (fun gs r => add_row r.1 r.2 gs) rs [].

End GroupBy.

(** The rows that the profession query groups: profession of the
    contractor, and the job. *)
Definition profession_rows (start end_ : option Z) (s : DB) : list (string * Job) :=
  omap (fun j =>
          match joined ContractorId s j with
          | Some (_, p) => Some (profession p, j)
          | None => None
          end)
       (selected_jobs start end_ s).

(** [Job.findOne] grouped by profession, ordered by [SUM(price)]
    descending: the first group, if any. *)
Definition topContractor (start end_ : option Z) (s : DB) : option (Group string) :=
  head (order_desc total (group_by (profession_rows start end_ s))).

(** GET /admin/best-profession.  The only selected attribute is
    [profession]. *)
Definition bestProfession (s : DB) (start end_ : option Z) : Response :=
  match topContractor start end_ s with
  | None => end_empty 404
  | Some g => send_json (JObj [("profession"%string, JStr (gkey g))])
  end.

(** The rows that the client query groups: client id and full name, and
    the job. *)
Definition client_rows (start end_ : option Z) (s : DB) : list (Z * Job) :=
  omap (fun j =>
          match joined ClientId s j with
          | Some (id, _) => Some (id, j)
          | None => None
          end)
       (selected_jobs start end_ s).

(** [LIMIT n] as the engine applies it.  The count is written into the
    statement in decimal; the engine takes it when it reads it as an
    integer of 64 bits, which it does for a double strictly between
    [- 2 ^ 63] and [2 ^ 63], and rejects the statement otherwise, as it
    does for a count that is not a finite number.  The result is the first
    [n] rows, every row when [n] is negative.  (From [2 ^ 53] on the
    decimal written is the shortest that reads back as the same double and
    may differ from [n] in its last digits; the count taken here is
    [n].) *)
Definition sql_limit {A} (n : Js.num) (l : list A) : Thrown + list A :=
  match n with
  | Js.Fin q =>
      let z := Qfloor q in
      if (z <=? - 2 ^ 63) || (2 ^ 63 <=? z) then inl (Raised QueryRejected)
      else if z <? 0 then inr l
      else inr (take (Z.to_nat z) l)
  | _ => inl (Raised QueryRejected)
  end.

(** [const { limit = 2 } = req.query; parseInt(limit)]. *)
Definition limit_of (limit : option string) : Js.num :=
  match limit with
  | Some str => Js.parseInt str
  | None => Js.Fin 2
  end.

Definition fullName_of (s : DB) (id : Z) : string :=
  match Profiles s !! id with
  | Some p => firstName p +:+ " " +:+ lastName p
  | None => ""
  end.

Definition client_json (s : DB) (g : Group Z) : json :=
  JObj [("id"%string, JInt (gkey g));
        ("fullName"%string, JStr (fullName_of s (gkey g)));
        ("paid"%string, JNum (total g))].

(** [Job.findAll] grouped by client, ordered by the selected sum, which
    the query names [paid], descending, and limited. *)
Definition topClients (start end_ : option Z) (limit : option string) (s : DB)
  : Thrown + list (Group Z) :=
  sql_limit (limit_of limit)
            (order_desc total (group_by (client_rows start end_ s))).

(** GET /admin/best-clients.  The handler has no [catch]: when the query
    is rejected no response is written ([inl]). *)
Definition bestClients (s : DB) (start end_ : option Z) (limit : option string)
  : Thrown + Response :=
  match topClients start end_ limit s with
  | inr gs => inr (send_json (JArr (map (client_json s) gs)))
  | inl e => inl e
  end.

(** ** Reading contracts and unpaid jobs *)

(** [profileTypeToIdKey]: the foreign key of a contract under which a
    profile of that type is named. *)
Definition profileTypeToIdKey (t : ProfileType) : Contract -> Z :=
  match t with
  | client => ClientId
  | contractor => ContractorId
  end.

(** GET /contracts/:id: [Contract.findOne] by key, restricted to the
    contracts that name the caller under the key of its type. *)
Definition getContract (s : DB) (profileId : Z) (profileType : ProfileType) (id : Z)
  : Response :=
  match Contracts s !! id with
  | Some c =>
      if profileTypeToIdKey profileType c =? profileId
      then send_json (JObj (Contract_fields id c))
      else end_empty 404
  | None => end_empty 404
  end.

(** [Contract.findAll] with [status: { [not]: 'terminated' }] and the
    caller's key. *)
Definition Contract_findAll_live (profileId : Z) (profileType : ProfileType) (s : DB)
  : list (Z * Contract) :=
  List.filter
    (fun r => bool_decide (status r.2 <> terminated) &&
              (profileTypeToIdKey profileType r.2 =? profileId))
    (rows (Contracts s)).

(** GET /contracts.  [findAll] yields an array, which is never falsy, so
    the handler's 404 is not reached. *)
Definition getContracts (s : DB) (profileId : Z) (profileType : ProfileType) : Response :=
  send_json
    (JArr (map (fun r => JObj (Contract_fields r.1 r.2))
               (Contract_findAll_live profileId profileType s))).

(** The include of GET /jobs/unpaid: the contract of the job when it is
    in progress and names the caller under the key [fk]. *)
Definition include_Contract_as (fk : Contract -> Z) (profileId : Z) (s : DB) (j : Job)
  : option Contract :=
  match Contracts s !! ContractId j with
  | Some c =>
      if bool_decide (status c = in_progress) && (fk c =? profileId)
      then Some c else None
  | None => None
  end.

(** [Job.findAll] with [paid: { [not]: true }] and the required include. *)
Definition Job_findAll_unpaid (profileId : Z) (profileType : ProfileType) (s : DB)
  : list (Z * Job * Contract) :=
  omap (fun r =>
          if not_paid r.2
          then match include_Contract_as (profileTypeToIdKey profileType) profileId s r.2 with
               | Some c => Some (r.1, r.2, c)
               | None => None
               end
          else None)
       (rows (Jobs s)).

Definition UnpaidJob_json (r : Z * Job * Contract) : json :=
  let '(id, j, c) := r in
  JObj (Job_fields id j ++
        [("Contract"%string, JObj (Contract_fields (ContractId j) c))]).

(** GET /jobs/unpaid; as for GET /contracts the 404 is not reached. *)
Definition getUnpaidJobs (s : DB) (profileId : Z) (profileType : ProfileType) : Response :=
  send_json (JArr (map UnpaidJob_json (Job_findAll_unpaid profileId profileType s))).

(** ** Definitions used to state the properties *)

(** *** Sums in the engine's arithmetic *)

(** The amounts of [l] added one after the other to [acc], each addition
    rounded. *)
Fixpoint rounded_sum_from (acc : Q) (l : list Q) : Q :=
  match l with
  | [] => acc
  | y :: r => rounded_sum_from (fl (acc + y)) r
  end.

(** The amounts of [l] added one after the other, from the first on, each
    addition rounded; [0] for no amount. *)
Definition rounded_sum (l : list Q) : Q :=
  match l with
  | [] => 0%Q
  | x :: r => rounded_sum_from x r
  end.

(** *** Settlement *)

Definition debited (s : DB) (j : Job) (c : Contract) (cl : Profile) : gmap Z Profile :=
  <[ClientId c := set_balance (fl (balance cl - price j)) cl]> (Profiles s).

Definition credited (ps : gmap Z Profile) (j : Job) (c : Contract) (co : Profile)
  : gmap Z Profile :=
  <[ContractorId c := set_balance (fl (balance co + price j)) co]> ps.

(** The store a settlement commits. *)
Definition settled (s : DB) (job_id now : Z) (j : Job) (c : Contract)
    (cl co : Profile) : DB :=
  {| Profiles := credited (debited s j c cl) j c co;
     Contracts := Contracts s;
     Jobs := alter (set_paid now) job_id (Jobs s) |}.

(** A job the caller can pay: of that id, not paid, under a contract in
    progress whose client is the caller. *)
Definition payable (s : DB) (profileId job_id : Z) : Prop :=
  exists j c,
    Jobs s !! job_id = Some j /\ not_paid j = true /\
    Contracts s !! ContractId j = Some c /\
    status c = in_progress /\ ClientId c = profileId.

(** *** Deposit *)

(** The store a deposit of [a] commits. *)
Definition deposited (s : DB) (profileId : Z) (a : Q) : DB :=
  with_Profiles (alter (fun p => set_balance (fl (balance p + a)) p) profileId (Profiles s)) s.

(** The deposit limit for the prices that count: a quarter of their sum,
    the sum and the quotient as the engine rounds them, [0] when there is
    none. *)
Definition quarter (prices : list Q) : Q :=
  match prices with
  | [] => 0%Q
  | _ => fl (rounded_sum prices / 4)
  end.

(** The gate of the handler, on a finite amount: [a > sum / 4]. *)
Definition over_limit (s : DB) (profileId : Z) (a : Q) : bool :=
  Js.gt (Js.Fin a)
        (div4 match exposure_jobs profileId s with
              | [] => None
              | js => Some (sum_of (map price js))
              end).

(** *** The balance invariant *)

Definition balances_nonneg (s : DB) : Prop :=
  map_Forall (fun _ p => (0 <= balance p)%Q) (Profiles s).

Definition prices_nonneg (s : DB) : Prop :=
  map_Forall (fun _ j => (0 <= price j)%Q) (Jobs s).

(** The two operations that change a balance, as requests. *)
Inductive Op : Type :=
| PayJob (profileId : Z) (profileType : ProfileType) (job_id now : Z)
| Deposit (profileId : Z) (profileType : ProfileType) (amount : option string).

(** The store committed by one request, and by a sequence of requests. *)
Definition step (s : DB) (op : Op) : DB :=
  match op with
  | PayJob profileId profileType job_id now =>
      (payJob s profileId profileType job_id now).2
  | Deposit profileId profileType amount =>
      (deposit s profileId profileType amount).2
  end.

Definition run (ops : list Op) (s : DB) : DB := fold_left step ops s.

(** A request that is not a deposit of a negative finite amount. *)
Definition not_negative (op : Op) : Prop :=
  match op with
  | PayJob _ _ _ _ => True
  | Deposit _ _ amount => forall a, Js.parseFloat_param amount = Js.Fin a -> (0 <= a)%Q
  end.

(** *** Aggregation *)

(** The sum the design document asks for: the prices of the rows of key
    [k], added in the engine's arithmetic. *)
Definition earned_by {K} `{EqDecision K} (rs : list (K * Job)) (k : K) : Q :=
  rounded_sum (map (fun r => price r.2) (List.filter (fun r => bool_decide (r.1 = k)) rs)).

(** The date range of the design document: each bound that is given is
    inclusive, and a bound that is given needs a date to compare with. *)
Definition in_range (start end_ : option Z) (d : option Z) : Prop :=
  (forall a, start = Some a -> exists t, d = Some t /\ a <= t) /\
  (forall b, end_ = Some b -> exists t, d = Some t /\ t <= b).

(** What [group_by] keeps true row after row: one group per key met, each
    holding the prices of the rows of its key. *)
Definition grouped {K} `{EqDecision K} (gs : list (Group K)) (rs : list (K * Job)) : Prop :=
  NoDup (map gkey gs) /\
  (forall k, k ∈ map gkey gs <-> k ∈ rs.*1) /\
  (forall g, g ∈ gs ->
             gprices g = map (fun r => price r.2)
                             (List.filter (fun r => bool_decide (r.1 = gkey g)) rs)).




(** *** Sums over a table *)


(** The optional bounds of a date range around an instant. *)
Definition within (start end_ : option Z) (t : Z) : Prop :=
  (forall a, start = Some a -> a <= t) /\ (forall b, end_ = Some b -> t <= b).

(** *** What stays of a row *)

(** Two states of a profile row that differ at most in the balance, and
    two states of a job row that differ at most in the paid mark and the
    payment date. *)
Definition same_identity (p p' : Profile) : Prop :=
  firstName p' = firstName p /\ lastName p' = lastName p /\
  profession p' = profession p /\ type p' = type p.

Definition same_work (j j' : Job) : Prop :=
  description j' = description j /\ price j' = price j /\ ContractId j' = ContractId j.

(** Two states of a table with the same keys and related rows. *)
Definition keeps_rows {A} (R : A -> A -> Prop) (t t' : gmap Z A) : Prop :=
  forall i,
    match t !! i, t' !! i with
    | Some x, Some x' => R x x'
    | None, None => True
    | _, _ => False
    end.
(** ** Settlement *)

Lemma include_Contract_Some profileId s j c :
  include_Contract profileId s j = Some c <->
  Contracts s !! ContractId j = Some c /\ status c = in_progress /\ ClientId c = profileId.
Proof.
  unfold include_Contract.
  destruct (Contracts s !! ContractId j) as [c'|]; [|split; [done | intros [? _]; done]].
  case_bool_decide as Hst; destruct (Z.eqb_spec (ClientId c') profileId) as [Hid|Hid]; simpl;
    (split; [intros [= ->] | intros ([= ->] & ? & ?)]); done.
Qed.

Lemma include_Client_Some profileId s c cl :
  include_Client profileId s c = Some cl <->
  Profiles s !! ClientId c = Some cl /\ ClientId c = profileId.
Proof.
  unfold include_Client.
  destruct (Profiles s !! ClientId c) as [p|]; [|split; [done | intros [? _]; done]].
  destruct (Z.eqb_spec (ClientId c) profileId) as [Hid|Hid];
    (split; [intros [= ->] | intros ([= ->] & ?)]); done.
Qed.

Lemma Job_with_includes_Some profileId s j r :
  Job_with_includes profileId s j = Some r <->
  exists c cl,
    r = (j, c, cl) /\ Contracts s !! ContractId j = Some c /\
    status c = in_progress /\ ClientId c = profileId /\
    Profiles s !! ClientId c = Some cl.
Proof.
  unfold Job_with_includes. split.
  - destruct (include_Contract profileId s j) as [c|] eqn:Hc; [|done].
    destruct (include_Client profileId s c) as [cl|] eqn:Hcl; [|done].
    intros [= <-]. apply include_Contract_Some in Hc as (? & ? & ?).
    apply include_Client_Some in Hcl as (? & ?). exists c, cl. done.
  - intros (c & cl & -> & Hc & Hst & Hid & Hcl).
    assert (include_Contract profileId s j = Some c) as -> by (apply include_Contract_Some; done).
    assert (include_Client profileId s c = Some cl) as -> by (apply include_Client_Some; done).
    done.
Qed.

Lemma find_unpaid_job_Some profileId job_id s j c cl :
  find_unpaid_job profileId job_id s = Some (j, c, cl) <->
  Jobs s !! job_id = Some j /\ not_paid j = true /\
  Contracts s !! ContractId j = Some c /\ status c = in_progress /\
  ClientId c = profileId /\ Profiles s !! ClientId c = Some cl.
Proof.
  unfold find_unpaid_job. split.
  - destruct (Jobs s !! job_id) as [j'|]; [|done].
    destruct (not_paid j') eqn:Hp; [|done].
    intros H. apply Job_with_includes_Some in H as (c' & cl' & Heq & ?).
    injection Heq as -> -> ->. done.
  - intros (-> & -> & Hc & Hst & Hid & Hcl). apply Job_with_includes_Some.
    exists c, cl. done.
Qed.

Lemma find_unpaid_job_None profileId job_id s p :
  Profiles s !! profileId = Some p ->
  find_unpaid_job profileId job_id s = None <-> ~ payable s profileId job_id.
Proof.
  intros Hp. split.
  - intros Hnone (j & c & Hj & Hnp & Hc & Hst & Hid).
    assert (find_unpaid_job profileId job_id s = Some (j, c, p)) as Hsome.
    { apply find_unpaid_job_Some. subst profileId. done. }
    congruence.
  - intros Hno. destruct (find_unpaid_job profileId job_id s) as [[[j c] cl]|] eqn:Hf; [|done].
    apply find_unpaid_job_Some in Hf as (? & ? & ? & ? & ? & ?).
    exfalso. apply Hno. exists j, c. done.
Qed.

(** What a settlement that returns has done: the job was found unpaid,
    the balance covered the price, both profiles were updated and the job
    was marked. *)
Lemma payJob_tx_returns profileId job_id now s res s' :
  payJob_tx profileId job_id now s = inr (res, s') ->
  exists j c cl co,
    find_unpaid_job profileId job_id s = Some (j, c, cl) /\
    Qle_bool (price j) (balance cl) = true /\
    debited s j c cl !! ContractorId c = Some co /\
    s' = settled s job_id now j c cl co.
Proof.
  unfold payJob_tx, mbind, Tx_bind, bind, Job_findOne_unpaid.
  destruct (find_unpaid_job profileId job_id s) as [[[j c] cl]|] eqn:Hf; [|done].
  unfold Js.Qltb. destruct (Qle_bool (price j) (balance cl)) eqn:Hle; [simpl|done].
  apply find_unpaid_job_Some in Hf as Hf'. destruct Hf' as (Hj & Hnp & Hc & Hst & Hid & Hcl).
  unfold Profile_decrement. rewrite Hcl, Hle.
  unfold Profile_increment. cbn [Profiles with_Profiles].
  fold (debited s j c cl).
  destruct (debited s j c cl !! ContractorId c) as [co|] eqn:Hco; [|done].
  unfold Job_save_paid, Job_reload. cbn [Jobs with_Jobs with_Profiles].
  destruct (alter (set_paid now) job_id (Jobs s) !! job_id) as [j'|]; [|done].
  match goal with |- context [Job_with_includes ?a ?b ?c] =>
    destruct (Job_with_includes a b c) end; [|done].
  intros [= _ <-]. exists j, c, cl, co. done.
Qed.

(** Whatever a settlement answers, it either succeeded or left the store
    as it was. *)
Lemma respond_rolls_back body s :
  statusCode (respond body s).1 = 200 \/ (respond body s).2 = s.
Proof.
  unfold respond, transaction. destruct (body s) as [e|[a s']]; [right|left]; done.
Qed.

Lemma respond_succeeded body s :
  succeeded (respond body s).1 ->
  (forall c m, body s = inl (Obj c m) -> c <> 200) ->
  exists res, body s = inr (res, (respond body s).2).
Proof.
  unfold respond, transaction, succeeded.
  destruct (body s) as [[c m|e]|[a s']] eqn:Hb; simpl.
  - intros -> Hc. exfalso. by eapply Hc.
  - done.
  - intros _ _. by exists a.
Qed.

(** The values the settlement throws carry the codes 404, 409 and 500. *)
Lemma payJob_tx_throws profileId job_id now s c m :
  payJob_tx profileId job_id now s = inl (Obj c m) -> c = 404 \/ c = 409 \/ c = 500.
Proof.
  unfold payJob_tx, mbind, Tx_bind, bind, Job_findOne_unpaid, throw.
  destruct (find_unpaid_job profileId job_id s) as [[[j cc] cl]|]; [|intros [= <- _]; auto].
  destruct (Js.Qltb (balance cl) (price j)); [intros [= <- _]; auto|].
  unfold Profile_decrement.
  destruct (Profiles s !! ClientId cc) as [p|]; [|intros [= <- _]; auto].
  destruct (Qle_bool (price j) (balance p)); [|intros [= <- _]; auto].
  unfold Profile_increment.
  match goal with |- context [Profiles ?s1 !! ContractorId cc] =>
    destruct (Profiles s1 !! ContractorId cc) end; [|intros [= <- _]; auto].
  unfold Job_save_paid, Job_reload, mret, Tx_ret, ret.
  cbn [Jobs with_Jobs with_Profiles].
  destruct (alter (set_paid now) job_id (Jobs s) !! job_id) as [j'|]; [|done].
  match goal with |- context [Job_with_includes ?a ?b ?c] =>
    destruct (Job_with_includes a b c) end; done.
Qed.

Lemma payJob_succeeded s profileId profileType job_id now :
  succeeded (payJob s profileId profileType job_id now).1 ->
  profileType = client /\
  exists j c cl co,
    find_unpaid_job profileId job_id s = Some (j, c, cl) /\
    Qle_bool (price j) (balance cl) = true /\
    debited s j c cl !! ContractorId c = Some co /\
    (payJob s profileId profileType job_id now).2 = settled s job_id now j c cl co.
Proof.
  unfold payJob. case_bool_decide as Ht; [done|].
  intros Hok. split; [by destruct profileType|].
  apply respond_succeeded in Hok as [res Hres].
  - apply payJob_tx_returns in Hres. done.
  - intros c m Hthrow ->. apply payJob_tx_throws in Hthrow. lia.
Qed.

(** A job that is already paid is not found. *)
Lemma payJob_paid_NotFound s profileId job_id now j :
  Jobs s !! job_id = Some j -> paid j = Some true ->
  payJob s profileId client job_id now = (end_with 404 "Job not found", s).
Proof.
  intros Hj Hp. unfold payJob, respond, transaction, payJob_tx, mbind, Tx_bind, bind,
    Job_findOne_unpaid, find_unpaid_job, not_paid.
  rewrite Hj, Hp. done.
Qed.

Lemma payJob_tx_not_found profileId job_id now s :
  find_unpaid_job profileId job_id s = None ->
  payJob_tx profileId job_id now s = inl (Obj 404 "Job not found").
Proof.
  intros Hf. unfold payJob_tx, mbind, Tx_bind, bind, Job_findOne_unpaid. by rewrite Hf.
Qed.

Lemma payJob_tx_found profileId job_id now s r c m :
  find_unpaid_job profileId job_id s = Some r ->
  payJob_tx profileId job_id now s = inl (Obj c m) -> c = 409 \/ c = 500.
Proof.
  intros Hf. unfold payJob_tx, mbind, Tx_bind, bind, Job_findOne_unpaid, throw.
  rewrite Hf. destruct r as [[j cc] cl].
  destruct (Js.Qltb (balance cl) (price j)); [intros [= <- _]; auto|].
  unfold Profile_decrement.
  destruct (Profiles s !! ClientId cc) as [p|]; [|intros [= <- _]; auto].
  destruct (Qle_bool (price j) (balance p)); [|intros [= <- _]; auto].
  unfold Profile_increment.
  match goal with |- context [Profiles ?s1 !! ContractorId cc] =>
    destruct (Profiles s1 !! ContractorId cc) end; [|intros [= <- _]; auto].
  unfold Job_save_paid, Job_reload, mret, Tx_ret, ret.
  cbn [Jobs with_Jobs with_Profiles].
  destruct (alter (set_paid now) job_id (Jobs s) !! job_id) as [j'|]; [|done].
  match goal with |- context [Job_with_includes ?a ?b ?c] =>
    destruct (Job_with_includes a b c) end; done.
Qed.

(** The status of the answer, by what the transaction body did. *)
Lemma respond_status body s :
  statusCode (respond body s).1 =
  match body s with
  | inr _ => 200
  | inl (Obj c _) => c
  | inl (Raised _) => 500
  end.
Proof.
  unfold respond, transaction. destruct (body s) as [[c m|e]|[a s']]; done.
Qed.

Lemma payJob_client_NotFound s profileId job_id now :
  NotFound (payJob s profileId client job_id now).1 <->
  find_unpaid_job profileId job_id s = None.
Proof.
  unfold NotFound, payJob. rewrite bool_decide_false by (intros H; by apply H).
  rewrite respond_status. split.
  - destruct (find_unpaid_job profileId job_id s) as [r|] eqn:Hf; [|done].
    destruct (payJob_tx profileId job_id now s) as [[c m|e]|?] eqn:Hb; [|done..].
    intros ->. eapply payJob_tx_found in Hb; [lia|done].
  - intros Hf. by rewrite (payJob_tx_not_found _ _ _ _ Hf).
Qed.


(** C3.  A settlement that does not succeed is answered 403, 404, 409 or
    500 and leaves the store exactly as it was; one that succeeds commits
    the debit, the credit and the paid mark together. *)
Theorem payJob_all_or_nothing s profileId profileType job_id now :
  let r := payJob s profileId profileType job_id now in
  (~ succeeded r.1 ->
   r.2 = s /\ (Forbidden r.1 \/ NotFound r.1 \/ Conflict r.1 \/ InternalError r.1)) /\
  (succeeded r.1 ->
   exists j c cl co,
     Jobs s !! job_id = Some j /\ Contracts s !! ContractId j = Some c /\
     Profiles s !! ClientId c = Some cl /\
     debited s j c cl !! ContractorId c = Some co /\
     r.2 = settled s job_id now j c cl co).
Proof.
  intros r. split.
  - intros Hfail. split.
    + subst r. unfold payJob in *. case_bool_decide; [done|].
      destruct (respond_rolls_back (payJob_tx profileId job_id now) s); [|done].
      by exfalso.
    + subst r. unfold succeeded, Forbidden, NotFound, Conflict, InternalError, payJob in *.
      case_bool_decide; [by left|]. rewrite respond_status in *.
      destruct (payJob_tx profileId job_id now s) as [[c m|e]|?] eqn:Hb.
      * apply payJob_tx_throws in Hb. tauto.
      * tauto.
      * by exfalso.
  - intros Hok. destruct (payJob_succeeded _ _ _ _ _ Hok) as (_ & j & c & cl & co & Hf & _ & Hco & Hs').
    apply find_unpaid_job_Some in Hf as (? & ? & ? & ? & ? & ?).
    exists j, c, cl, co. done.
Qed.

(** C5.  A caller that is not a client is answered 403 and nothing
    changes.  A client is answered 404 exactly when no job of that id is
    unpaid under a contract in progress whose client is the caller; in
    particular when the job of that id is already paid. *)
Theorem payJob_Forbidden_or_NotFound s profileId p job_id now :
  Profiles s !! profileId = Some p ->
  let r := payJob s profileId (type p) job_id now in
  (type p <> client -> Forbidden r.1 /\ r.2 = s) /\
  (type p = client -> (NotFound r.1 <-> ~ payable s profileId job_id)) /\
  (type p = client ->
   forall j, Jobs s !! job_id = Some j -> paid j = Some true -> NotFound r.1).
Proof.
  intros Hp r. subst r. split; [|split].
  - intros Ht. unfold payJob. rewrite bool_decide_true by done. done.
  - intros Ht. rewrite Ht. rewrite payJob_client_NotFound.
    apply (find_unpaid_job_None _ _ _ _ Hp).
  - intros Ht j Hj Hpaid. rewrite Ht.
    rewrite (payJob_paid_NotFound _ _ _ _ _ Hj Hpaid). done.
Qed.

(** ** The unpaid jobs of a caller *)

Lemma elem_of_rows {A} (t : gmap Z A) i x : (i, x) ∈ rows t <-> t !! i = Some x.
Proof. unfold rows. rewrite merge_sort_Permutation. apply elem_of_map_to_list. Qed.

Lemma NoDup_rows_keys {A} (t : gmap Z A) : NoDup (rows t).*1.
Proof. unfold rows. rewrite merge_sort_Permutation. apply NoDup_fst_map_to_list. Qed.

Lemma include_Contract_as_Some fk profileId s j c :
  include_Contract_as fk profileId s j = Some c <->
  Contracts s !! ContractId j = Some c /\ status c = in_progress /\ fk c = profileId.
Proof.
  unfold include_Contract_as.
  destruct (Contracts s !! ContractId j) as [c'|]; [|split; [done | intros [? _]; done]].
  case_bool_decide as Hst; destruct (Z.eqb_spec (fk c') profileId) as [Hid|Hid]; simpl;
    (split; [intros [= ->] | intros ([= ->] & ? & ?)]); done.
Qed.

Lemma elem_of_Job_findAll_unpaid profileId profileType s id j c :
  (id, j, c) ∈ Job_findAll_unpaid profileId profileType s <->
  Jobs s !! id = Some j /\ not_paid j = true /\
  Contracts s !! ContractId j = Some c /\ status c = in_progress /\
  profileTypeToIdKey profileType c = profileId.
Proof.
  unfold Job_findAll_unpaid. rewrite list_elem_of_omap. split.
  - intros ([id' j'] & Hin & Hrow). cbn [fst snd] in Hrow.
    destruct (not_paid j') eqn:Hnp; [|done].
    destruct (include_Contract_as _ profileId s j') as [c'|] eqn:Hc; [|done].
    injection Hrow as -> -> ->. apply elem_of_rows in Hin.
    apply include_Contract_as_Some in Hc. tauto.
  - intros (Hj & Hnp & Hc). exists (id, j). split; [by apply elem_of_rows|].
    cbn [fst snd]. rewrite Hnp.
    assert (include_Contract_as (profileTypeToIdKey profileType) profileId s j = Some c)
      as -> by (by apply include_Contract_as_Some).
    done.
Qed.

Lemma Job_findAll_unpaid_keys profileId profileType s :
  NoDup (Job_findAll_unpaid profileId profileType s).*1.*1.
Proof.
  unfold Job_findAll_unpaid. pose proof (NoDup_rows_keys (Jobs s)) as Hnd.
  induction (rows (Jobs s)) as [|[id j] l IH]; cbn [omap list_omap fst snd]; [constructor|].
  apply NoDup_cons in Hnd as [Hid Hl].
  destruct (not_paid j); [|by apply IH].
  destruct (include_Contract_as _ profileId s j) as [c|]; [|by apply IH].
  cbn. apply NoDup_cons. split; [|by apply IH].
  intros Hin. apply Hid.
  apply list_elem_of_fmap in Hin as ([id' j'] & Heq & Hin). cbn in Heq. subst id'.
  apply list_elem_of_fmap in Hin as ([[id' j''] c'] & [= <- <-] & Hin).
  apply list_elem_of_omap in Hin as ([id2 j2] & Hin2 & Hrow). cbn [fst snd] in Hrow.
  destruct (not_paid j2); [|done].
  destruct (include_Contract_as _ profileId s j2); [|done].
  injection Hrow as -> -> _. by apply (list_elem_of_fmap_2 fst) in Hin2.
Qed.

(** The jobs that GET /jobs/unpaid lists for a client are the jobs whose
    prices the deposit handler sums, in the same order. *)
Lemma Job_findAll_unpaid_client profileId s :
  (Job_findAll_unpaid profileId client s).*1.*2 = exposure_jobs profileId s.
Proof.
  unfold Job_findAll_unpaid, exposure_jobs.
  induction (rows (Jobs s)) as [|[id j] l IH]; cbn [omap list_omap map List.filter fst snd];
    [done|].
  unfold is_exposure at 1.
  change (include_Contract_as (profileTypeToIdKey client) profileId s j)
    with (include_Contract profileId s j).
  destruct (not_paid j); cbn [andb]; [|exact IH].
  destruct (include_Contract profileId s j); cbn; [by f_equal | exact IH].
Qed.

(** ** Deposit *)

(** Linear arithmetic over [Q] with the division by four written as a
    product. *)
Ltac lra4 := unfold Qdiv in *; change (/ 4)%Q with (1 # 4)%Q in *; lra.

Lemma sum_of_rounded_sum l : sum_of l = rounded_sum l.
Proof.
  destruct l as [|x l]; [done|]. cbn [sum_of rounded_sum]. revert x.
  induction l as [|y l IH]; intros x; cbn [fold_left rounded_sum_from]; [done|]. apply IH.
Qed.

Lemma over_limit_true s profileId a :
  over_limit s profileId a = true <->
  (quarter (map price (exposure_jobs profileId s)) < a)%Q.
Proof.
  unfold over_limit, quarter.
  destruct (exposure_jobs profileId s) as [|j js]; cbn [div4 Js.gt map];
    rewrite ?sum_of_rounded_sum, negb_true_iff, <- not_true_iff_false, Qle_bool_iff;
    (split; [apply Qnot_le_lt | apply Qlt_not_le]).
Qed.

Lemma over_limit_false s profileId a :
  over_limit s profileId a = false <->
  (a <= quarter (map price (exposure_jobs profileId s)))%Q.
Proof.
  rewrite <- not_true_iff_false, over_limit_true. split.
  - apply Qnot_lt_le.
  - intros H. by apply Qle_not_lt.
Qed.

(** The handler on a finite amount, for a client whose row exists. *)
Lemma deposit_finite s profileId p amount a :
  Profiles s !! profileId = Some p ->
  Js.parseFloat_param amount = Js.Fin a ->
  deposit s profileId client amount =
  if over_limit s profileId a
  then (end_with 409 msg_deposit_limit, s)
  else (send_json (JObj (Profile_fields profileId (set_balance (fl (balance p + a)) p))),
        deposited s profileId a).
Proof.
  intros Hp Ha. unfold deposit, over_limit. rewrite Ha.
  rewrite bool_decide_false by (intros H; by apply H).
  unfold respond, transaction, deposit_tx, mbind, Tx_bind, bind, Job_sum_unpaid.
  destruct (exposure_jobs profileId s) as [|j js].
  - destruct (Js.gt (Js.Fin a) (div4 None)); [done|].
    unfold profile_increment, profile_reload. cbn [Profiles with_Profiles].
    rewrite lookup_alter_eq, Hp. done.
  - destruct (Js.gt (Js.Fin a) (div4 (Some (sum_of (map price (j :: js)))))); [done|].
    unfold profile_increment, profile_reload. cbn [Profiles with_Profiles].
    rewrite lookup_alter_eq, Hp. done.
Qed.

(** The handler on an amount that is not a finite number. *)
Lemma deposit_not_finite s profileId amount :
  (forall a, Js.parseFloat_param amount <> Js.Fin a) ->
  (deposit s profileId client amount).2 = s /\
  (statusCode (deposit s profileId client amount).1 = 409 \/
   statusCode (deposit s profileId client amount).1 = 500).
Proof.
  intros Hnf. unfold deposit.
  rewrite bool_decide_false by (intros H; by apply H).
  unfold respond, transaction, deposit_tx, mbind, Tx_bind, bind, Job_sum_unpaid.
  destruct (Js.parseFloat_param amount) as [| | |a] eqn:Ha; [| | |by destruct (Hnf a)];
    destruct (exposure_jobs profileId s) as [|j js]; cbn; auto.
Qed.


(** C10, as the handler has it.  A client that deposits a negative finite
    amount, while the sum of the prices of the unpaid jobs listed to it,
    added in the engine's arithmetic, is not negative, succeeds:
    the handler has no lower bound on the amount.  Its balance becomes the
    sum of the balance and that amount as the engine rounds it, a sum
    that is below the balance before rounding. *)
Theorem deposit_negative_accepted s profileId p amount a :
  Profiles s !! profileId = Some p ->
  type p = client ->
  Js.parseFloat_param amount = Js.Fin a ->
  (a < 0)%Q ->
  (0 <= rounded_sum (map price (Job_findAll_unpaid profileId client s).*1.*2))%Q ->
  let r := deposit s profileId (type p) amount in
  succeeded r.1 /\
  exists p',
    Profiles r.2 !! profileId = Some p' /\
    balance p' = fl (balance p + a) /\ (balance p + a < balance p)%Q /\
    same_identity p p'.
Proof.
  intros Hp Ht Ha Hneg He r. subst r. rewrite Ht, (deposit_finite _ _ _ _ _ Hp Ha).
  rewrite Job_findAll_unpaid_client in He.
  assert (over_limit s profileId a = false) as ->.
  { apply over_limit_false. unfold quarter.
    destruct (map price (exposure_jobs profileId s)) as [|x l] eqn:Hl; [lra|].
    assert (0 <= fl (rounded_sum (x :: l) / 4))%Q; [|lra].
    apply fl_nonneg. lra4. }
  split; [done|]. exists (set_balance (fl (balance p + a)) p). cbn.
  split; [by rewrite lookup_alter_eq, Hp|]. split; [done|]. split; [lra | by repeat split].
Qed.

(** The only value the deposit throws itself carries the code 409. *)
Lemma deposit_tx_throws profileId depositAmount s c m :
  deposit_tx profileId depositAmount s = inl (Obj c m) -> c = 409.
Proof.
  unfold deposit_tx, mbind, Tx_bind, bind, Job_sum_unpaid, throw.
  destruct (exposure_jobs profileId s) as [|j js];
    match goal with |- context [Js.gt ?x ?y] => destruct (Js.gt x y) end;
    try (intros [= <- _]; done);
    unfold profile_increment, profile_reload;
    destruct depositAmount; try done; cbn [Profiles with_Profiles];
    match goal with |- context [?m !! profileId] => destruct (m !! profileId) end; done.
Qed.

Lemma deposit_status s profileId profileType amount :
  let r := deposit s profileId profileType amount in
  succeeded r.1 \/ Forbidden r.1 \/ Conflict r.1 \/ InternalError r.1.
Proof.
  unfold succeeded, Forbidden, Conflict, InternalError, deposit. cbn zeta.
  case_bool_decide; [auto|]. rewrite respond_status.
  destruct (deposit_tx profileId (Js.parseFloat_param amount) s) as [[c m|e]|?] eqn:Hb; auto.
  apply deposit_tx_throws in Hb. auto.
Qed.

(** C6, as the handler has it.  The amount is not validated: no deposit is
    answered 400.  A caller that is not a client is answered 403 and
    nothing changes.  An amount that is not a finite number (not numeric,
    absent, or infinite) makes the call fail, with 409 or 500, and nothing
    changes. *)
Theorem deposit_amount_not_validated s profileId profileType amount :
  let r := deposit s profileId profileType amount in
  (profileType <> client -> Forbidden r.1 /\ r.2 = s) /\
  ((succeeded r.1 \/ Forbidden r.1 \/ Conflict r.1 \/ InternalError r.1) /\
   ~ InvalidArgument r.1) /\
  ((forall a, Js.parseFloat_param amount <> Js.Fin a) ->
   ~ succeeded r.1 /\ r.2 = s).
Proof.
  intros r. split; [|split].
  - intros Ht. subst r. unfold deposit. rewrite bool_decide_true by done. done.
  - pose proof (deposit_status s profileId profileType amount) as Hst.
    split; [exact Hst|].
    unfold InvalidArgument, succeeded, Forbidden, Conflict, InternalError in *.
    cbn zeta in Hst. subst r. lia.
  - intros Hnf. subst r. destruct profileType.
    + destruct (deposit_not_finite s profileId amount Hnf) as (Hs & Hc).
      split; [|done]. unfold succeeded. lia.
    + unfold deposit. rewrite bool_decide_true by done. done.
Qed.

(** X16.  What a client gets for an amount that is not a finite number.
    Plus infinity is above every limit: the deposit is refused with the
    deposit-limit conflict.  No number (as for an amount that is absent
    or not numeric) and minus infinity are above no limit: the increment
    is issued, the engine rejects the statement, and the [catch] clause
    answers 500 with the engine's error.  In each case nothing changes. *)
Theorem deposit_not_finite_outcome s profileId amount :
  (Js.parseFloat_param amount = Js.PInf ->
   deposit s profileId client amount = (end_with 409 msg_deposit_limit, s)) /\
  (Js.parseFloat_param amount = Js.NaN \/ Js.parseFloat_param amount = Js.NInf ->
   deposit s profileId client amount =
   ({| statusCode := 500; body := ErrorText QueryRejected |}, s)) /\
  (amount = None -> Js.parseFloat_param amount = Js.NaN).
Proof.
  split; [|split].
  - intros Ha. unfold deposit. rewrite Ha.
    rewrite bool_decide_false by (intros H; by apply H).
    unfold respond, transaction, deposit_tx, mbind, Tx_bind, bind, Job_sum_unpaid.
    by destruct (exposure_jobs profileId s).
  - intros Ha. unfold deposit.
    rewrite bool_decide_false by (intros H; by apply H).
    unfold respond, transaction, deposit_tx, mbind, Tx_bind, bind, Job_sum_unpaid.
    destruct Ha as [-> | ->]; by destruct (exposure_jobs profileId s).
  - by intros ->.
Qed.

(** ** The balance invariant *)

Lemma payJob_state s profileId profileType job_id now :
  (payJob s profileId profileType job_id now).2 = s \/
  exists j c cl co,
    Jobs s !! job_id = Some j /\ Profiles s !! ClientId c = Some cl /\
    Qle_bool (price j) (balance cl) = true /\
    debited s j c cl !! ContractorId c = Some co /\
    (payJob s profileId profileType job_id now).2 = settled s job_id now j c cl co.
Proof.
  unfold payJob. case_bool_decide; [by left|].
  destruct (respond_rolls_back (payJob_tx profileId job_id now) s) as [Hok|]; [|by left].
  right. apply respond_succeeded in Hok as [res Hres].
  - apply payJob_tx_returns in Hres as (j & c & cl & co & Hf & Hle & Hco & Hs').
    apply find_unpaid_job_Some in Hf as (? & ? & ? & ? & ? & ?).
    exists j, c, cl, co. done.
  - intros c m Hthrow ->. apply payJob_tx_throws in Hthrow. lia.
Qed.

Lemma deposit_state s profileId profileType amount :
  (deposit s profileId profileType amount).2 = s \/
  exists a, Js.parseFloat_param amount = Js.Fin a /\
            (deposit s profileId profileType amount).2 = deposited s profileId a.
Proof.
  unfold deposit. case_bool_decide; [by left|].
  unfold respond, transaction, deposit_tx, mbind, Tx_bind, bind, Job_sum_unpaid.
  destruct (Js.parseFloat_param amount) as [| | |a];
    destruct (exposure_jobs profileId s) as [|j js];
    match goal with |- context [Js.gt ?x ?y] => destruct (Js.gt x y) end;
    try (by left);
    unfold profile_increment, profile_reload; cbn [Profiles with_Profiles];
    match goal with |- context [?m !! profileId] => destruct (m !! profileId) end;
    try (by left); right; exists a; done.
Qed.

Lemma payJob_keeps_balances_nonneg s profileId profileType job_id now :
  balances_nonneg s -> prices_nonneg s ->
  balances_nonneg (payJob s profileId profileType job_id now).2.
Proof.
  intros Hb Hp.
  destruct (payJob_state s profileId profileType job_id now)
    as [->|(j & c & cl & co & Hj & Hcl & Hle & Hco & ->)]; [done|].
  unfold balances_nonneg, settled, credited. cbn [Profiles].
  assert (map_Forall (fun _ p => (0 <= balance p)%Q) (debited s j c cl)) as Hd.
  { unfold debited. apply map_Forall_insert_2; [|done].
    apply Qle_bool_iff in Hle. cbn. apply fl_nonneg. lra. }
  apply map_Forall_insert_2; [|done].
  pose proof (Hd _ _ Hco) as Hco0. pose proof (Hp _ _ Hj) as Hj0. cbn in *.
  apply fl_nonneg. lra.
Qed.

Lemma payJob_keeps_prices_nonneg s profileId profileType job_id now :
  prices_nonneg s -> prices_nonneg (payJob s profileId profileType job_id now).2.
Proof.
  intros Hp.
  destruct (payJob_state s profileId profileType job_id now)
    as [->|(j & c & cl & co & Hj & Hcl & Hle & Hco & ->)]; [done|].
  unfold prices_nonneg, settled. cbn [Jobs]. intros i j' Hi.
  destruct (decide (i = job_id)) as [->|Hne].
  - rewrite lookup_alter_eq, Hj in Hi. injection Hi as <-. exact (Hp _ _ Hj).
  - rewrite lookup_alter_ne in Hi by done. exact (Hp _ _ Hi).
Qed.

Lemma deposit_keeps_balances_nonneg s profileId profileType amount :
  not_negative (Deposit profileId profileType amount) ->
  balances_nonneg s -> balances_nonneg (deposit s profileId profileType amount).2.
Proof.
  intros Hnn Hb.
  destruct (deposit_state s profileId profileType amount) as [->|(a & Ha & ->)]; [done|].
  pose proof (Hnn a Ha) as Ha0.
  unfold balances_nonneg, deposited. cbn [Profiles with_Profiles]. intros i p Hi.
  destruct (decide (i = profileId)) as [->|Hne].
  - rewrite lookup_alter_eq in Hi.
    destruct (Profiles s !! profileId) as [p0|] eqn:Hp0; [|done].
    injection Hi as <-. pose proof (Hb _ _ Hp0) as H0. cbn in *.
    apply fl_nonneg. lra.
  - rewrite lookup_alter_ne in Hi by done. exact (Hb _ _ Hi).
Qed.

Lemma deposit_keeps_prices_nonneg s profileId profileType amount :
  prices_nonneg s -> prices_nonneg (deposit s profileId profileType amount).2.
Proof.
  intros Hp.
  destruct (deposit_state s profileId profileType amount) as [->|(a & Ha & ->)]; done.
Qed.

(** C2, as the handlers have it.  From a store in which every balance and
    every price is at least zero, every settlement and every deposit that
    is not of a negative amount leaves every balance at least zero, and so
    does every sequence of such requests. *)
Theorem balances_stay_nonneg ops s :
  balances_nonneg s -> prices_nonneg s -> Forall not_negative ops ->
  balances_nonneg (run ops s).
Proof.
  revert s. induction ops as [|op ops IH]; intros s Hb Hp Hops; [done|].
  apply Forall_cons in Hops as [Hop Hops]. cbn [run fold_left].
  apply IH; [| |done].
  - destruct op as [profileId profileType job_id now|profileId profileType amount]; cbn [step].
    + by apply payJob_keeps_balances_nonneg.
    + by apply deposit_keeps_balances_nonneg.
  - destruct op as [profileId profileType job_id now|profileId profileType amount]; cbn [step].
    + by apply payJob_keeps_prices_nonneg.
    + by apply deposit_keeps_prices_nonneg.
Qed.

(** ** Aggregation *)

Section GroupByFacts.
Context {K : Type} `{EqDecision K}.
Implicit Types (gs : list (Group K)) (rs : list (K * Job)) (k : K).

(** The prices of the rows of key [k], in the order of the rows. *)
Lemma prices_of_snoc rs k k' j :
  map (fun r : K * Job => price r.2)
      (List.filter (fun r => bool_decide (r.1 = k)) (rs ++ [(k', j)])) =
  map (fun r : K * Job => price r.2) (List.filter (fun r => bool_decide (r.1 = k)) rs)
  ++ if decide (k' = k) then [price j] else [].
Proof.
  rewrite List.filter_app, map_app. cbn [List.filter fst].
  unfold bool_decide. destruct (decide_rel eq k' k) as [->|Hne].
  - by rewrite decide_True.
  - by rewrite decide_False.
Qed.

Lemma prices_of_absent rs k :
  k ∉ rs.*1 ->
  map (fun r : K * Job => price r.2) (List.filter (fun r => bool_decide (r.1 = k)) rs) = [].
Proof.
  intros Hk. induction rs as [|[k' j] rs IH]; [done|]. cbn [List.filter fst].
  apply not_elem_of_cons in Hk as [Hne Hk]. cbn in Hne.
  rewrite bool_decide_false by congruence. by apply IH.
Qed.

Lemma add_row_keys k j gs :
  map gkey (add_row k j gs) =
  if decide (k ∈ map gkey gs) then map gkey gs else map gkey gs ++ [k].
Proof.
  induction gs as [|g gs IH]; cbn [add_row map].
  - rewrite decide_False by apply not_elem_of_nil. done.
  - destruct (decide (gkey g = k)) as [<-|Hne]; cbn [map gkey].
    + rewrite decide_True by apply list_elem_of_here. done.
    + rewrite IH. destruct (decide (k ∈ map gkey gs)) as [Hin|Hnin].
      * rewrite decide_True by (by apply list_elem_of_further). done.
      * rewrite decide_False; [done|].
        intros [Heq|Hin]%elem_of_cons; [congruence|done].
Qed.

Lemma add_row_elem k j gs g' :
  NoDup (map gkey gs) ->
  g' ∈ add_row k j gs ->
  (gkey g' <> k /\ g' ∈ gs) \/
  (gkey g' = k /\
   ((exists g, g ∈ gs /\ gkey g = k /\ gprices g' = gprices g ++ [price j]) \/
    ((k ∉ map gkey gs) /\ gprices g' = [price j]))).
Proof.
  induction gs as [|g gs IH]; cbn [add_row map]; intros Hnd Hin.
  - apply list_elem_of_singleton in Hin as ->. right. split; [done|]. right.
    split; [apply not_elem_of_nil | done].
  - apply NoDup_cons in Hnd as [Hg Hnd].
    destruct (decide (gkey g = k)) as [Hk|Hne].
    + apply elem_of_cons in Hin as [->|Hin].
      * right. split; [done|]. left. exists g. split; [apply list_elem_of_here | done].
      * left. split; [|by apply list_elem_of_further].
        intros Hk'. apply Hg. rewrite Hk, <- Hk'. by apply list_elem_of_fmap_2.
    + apply elem_of_cons in Hin as [->|Hin].
      * left. split; [done | apply list_elem_of_here].
      * destruct (IH Hnd Hin) as [[? ?]|[Hk [(g0 & ? & ? & ?)|[Hnin ?]]]].
        -- left. split; [done | by apply list_elem_of_further].
        -- right. split; [done|]. left. exists g0.
           split; [by apply list_elem_of_further | done].
        -- right. split; [done|]. right. split; [|done].
           intros [Heq|?]%elem_of_cons; [congruence | done].
Qed.

Lemma grouped_add_row gs rs k j :
  grouped gs rs -> grouped (add_row k j gs) (rs ++ [(k, j)]).
Proof.
  intros (Hnd & Hkeys & Htot). split; [|split].
  - rewrite add_row_keys. destruct (decide (k ∈ map gkey gs)); [done|].
    apply NoDup_app. split; [done|]. split; [|apply NoDup_singleton].
    intros x Hx ->%list_elem_of_singleton. done.
  - intros k0. rewrite add_row_keys, fmap_app, elem_of_app. cbn.
    rewrite list_elem_of_singleton, <- Hkeys.
    destruct (decide (k ∈ map gkey gs)) as [Hin|Hnin].
    + split; [auto|]. intros [?| ->]; done.
    + rewrite elem_of_app, list_elem_of_singleton. done.
  - intros g' Hg'. rewrite prices_of_snoc.
    destruct (add_row_elem _ _ _ _ Hnd Hg') as [[Hne Hin]|[Hk [(g & Hin & Hgk & Ht)|[Hnin Ht]]]].
    + rewrite decide_False by congruence. rewrite (Htot _ Hin). by rewrite app_nil_r.
    + rewrite decide_True by congruence. rewrite Ht, (Htot _ Hin), Hgk, Hk. done.
    + rewrite decide_True by congruence. rewrite Ht.
      rewrite prices_of_absent; [done|]. rewrite Hk. by rewrite <- Hkeys.
Qed.

Lemma group_by_grouped rs : grouped (group_by rs) rs.
Proof.
  unfold group_by. induction rs as [|[k j] rs IH] using rev_ind.
  - split; [apply NoDup_nil_2|]. split; [done|]. intros g Hg. by apply elem_of_nil in Hg.
  - rewrite fold_left_app. cbn [fold_left fst snd]. by apply grouped_add_row.
Qed.

(** The sum of a group is the sum over the rows of its key. *)
Lemma grouped_total gs rs g :
  grouped gs rs -> g ∈ gs -> total g = earned_by rs (gkey g).
Proof.
  intros (_ & _ & Htot) Hg. unfold total, earned_by.
  by rewrite sum_of_rounded_sum, (Htot _ Hg).
Qed.

End GroupByFacts.

(** *** Ordering *)

Lemma order_desc_nil {A} (key : A -> Q) : order_desc key [] = [].
Proof. apply Permutation_nil_r. apply order_desc_Permutation. Qed.

(** The first row of the ordered result has the greatest key. *)
Lemma order_desc_head {A} (key : A -> Q) l h :
  head (order_desc key l) = Some h ->
  h ∈ l /\ forall x, x ∈ l -> (key x <= key h)%Q.
Proof.
  intros Hh. pose proof (order_desc_Permutation key l) as Hperm.
  pose proof (order_desc_sorted key l) as Hsorted.
  destruct (order_desc key l) as [|h' r]; [done|]. injection Hh as ->.
  apply StronglySorted_inv in Hsorted as [_ Hall].
  split.
  - rewrite <- Hperm. apply list_elem_of_here.
  - intros x Hx. rewrite <- Hperm in Hx. apply elem_of_cons in Hx as [->|Hx]; [lra|].
    by apply (proj1 (Forall_forall _ _) Hall).
Qed.

(** *** Selection *)

Lemma whereCondition_true start end_ j :
  whereCondition start end_ j = true <->
  paid j = Some true /\ in_range start end_ (paymentDate j).
Proof.
  unfold whereCondition, in_range, is_paid, not_paid.
  rewrite !andb_true_iff, negb_true_iff.
  assert ((match paid j with Some true => false | _ => true end) = false
          <-> paid j = Some true) as ->.
  { destruct (paid j) as [[|]|]; split; congruence. }
  assert (forall (bound : option Z) (le : Z -> Z -> bool) (R : Z -> Z -> Prop),
             (forall a d, le a d = true <-> R a d) ->
             match bound with
             | Some a => match paymentDate j with Some d => le a d | None => false end
             | None => true
             end = true <->
             forall a, bound = Some a -> exists t, paymentDate j = Some t /\ R a t) as Hb.
  { intros bound le R Hle. destruct bound as [a|]; [|split; [congruence | done]].
    destruct (paymentDate j) as [d|]; split.
    - intros H a' [= <-]. exists d. split; [done | by apply Hle].
    - intros H. destruct (H a eq_refl) as (t & [= <-] & ?). by apply Hle.
    - done.
    - intros H. destruct (H a eq_refl) as (t & ? & _). done. }
  rewrite (Hb start Z.leb (fun a d => a <= d)) by (intros; apply Z.leb_le).
  rewrite (Hb end_ (fun b d => d <=? b) (fun b d => d <= b)) by (intros; apply Z.leb_le).
  tauto.
Qed.

Lemma elem_of_selected_jobs start end_ s j :
  j ∈ selected_jobs start end_ s <->
  (exists id, Jobs s !! id = Some j) /\
  paid j = Some true /\ in_range start end_ (paymentDate j).
Proof.
  unfold selected_jobs. rewrite list_elem_of_In, filter_In, <- list_elem_of_In.
  rewrite whereCondition_true. change (map snd (rows (Jobs s))) with ((rows (Jobs s)).*2).
  rewrite list_elem_of_fmap. split.
  - intros [([id j'] & -> & Hin) Hw]. split; [|done]. exists id. by apply elem_of_rows.
  - intros [[id Hid] Hw]. split; [|done]. exists (id, j). split; [done|]. by apply elem_of_rows.
Qed.

Lemma joined_Some fk s j id p :
  joined fk s j = Some (id, p) <->
  exists c, Contracts s !! ContractId j = Some c /\ id = fk c /\ Profiles s !! id = Some p.
Proof.
  unfold joined. destruct (Contracts s !! ContractId j) as [c|]; [|split; [done|]].
  - destruct (Profiles s !! fk c) as [p'|] eqn:Hp; split.
    + intros [= <- <-]. by exists c.
    + intros (c' & [= <-] & -> & Hp'). congruence.
    + done.
    + intros (c' & [= <-] & -> & Hp'). congruence.
  - intros (c & ? & _). done.
Qed.

Lemma elem_of_profession_rows start end_ s p j :
  (p, j) ∈ profession_rows start end_ s <->
  exists id c pr,
    Jobs s !! id = Some j /\ paid j = Some true /\
    in_range start end_ (paymentDate j) /\
    Contracts s !! ContractId j = Some c /\
    Profiles s !! ContractorId c = Some pr /\ profession pr = p.
Proof.
  unfold profession_rows. rewrite list_elem_of_omap. split.
  - intros (j' & Hsel & Hrow).
    destruct (joined ContractorId s j') as [[cid pr]|] eqn:Hj; [|done].
    injection Hrow as <- <-. apply joined_Some in Hj as (c & Hc & -> & Hpr).
    apply elem_of_selected_jobs in Hsel as ([id Hid] & Hpaid & Hrange).
    exists id, c, pr. done.
  - intros (id & c & pr & Hid & Hpaid & Hrange & Hc & Hpr & <-).
    exists j. split.
    + apply elem_of_selected_jobs. split; [by exists id | done].
    + assert (joined ContractorId s j = Some (ContractorId c, pr)) as ->; [|done].
      apply joined_Some. by exists c.
Qed.

(** C7, as the handler has it.  The rows grouped are the paid jobs whose
    payment date lies within the bounds given (inclusive), joined with
    their contract and its contractor.  With no such row the answer is
    404.  Otherwise the answer is an object whose only field is
    [profession] (the sum is not part of it), and that profession is one
    whose summed price over those rows is greatest. *)
Theorem bestProfession_is_top_earner s start end_ :
  let rs := profession_rows start end_ s in
  (forall p j,
      (p, j) ∈ rs <->
      exists id c pr,
        Jobs s !! id = Some j /\ paid j = Some true /\
        in_range start end_ (paymentDate j) /\
        Contracts s !! ContractId j = Some c /\
        Profiles s !! ContractorId c = Some pr /\ profession pr = p) /\
  (rs = [] -> bestProfession s start end_ = end_empty 404) /\
  (rs <> [] ->
   exists p,
     bestProfession s start end_ = send_json (JObj [("profession"%string, JStr p)]) /\
     p ∈ rs.*1 /\
     forall q, q ∈ rs.*1 -> (earned_by rs q <= earned_by rs p)%Q).
Proof.
  intros rs. split; [|split].
  - intros p j. apply elem_of_profession_rows.
  - intros Hnil. unfold bestProfession, topContractor. fold rs. rewrite Hnil.
    unfold group_by. cbn [fold_left]. by rewrite order_desc_nil.
  - intros Hne. unfold bestProfession, topContractor. fold rs.
    destruct (group_by_grouped rs) as (_ & Hkeys & Htot).
    destruct (head (order_desc total (group_by rs))) as [g|] eqn:Hhead.
    + apply order_desc_head in Hhead as [Hg Hmax].
      exists (gkey g). split; [done|]. split.
      * apply Hkeys. by apply list_elem_of_fmap_2.
      * intros q Hq. apply Hkeys in Hq. apply list_elem_of_fmap in Hq as (g' & -> & Hg').
        rewrite <- (grouped_total _ _ _ (group_by_grouped rs) Hg'),
          <- (grouped_total _ _ _ (group_by_grouped rs) Hg).
        by apply Hmax.
    + exfalso. apply head_None in Hhead.
      assert (group_by rs = []) as Hgs.
      { apply Permutation_nil_r. rewrite <- Hhead. symmetry. apply order_desc_Permutation. }
      destruct rs as [|[k j] rs']; [done|].
      assert (k ∈ map gkey (group_by ((k, j) :: rs'))) as Hk
        by (apply Hkeys; apply list_elem_of_here).
      rewrite Hgs in Hk. by apply elem_of_nil in Hk.
Qed.

(** *** Best clients *)

Lemma elem_of_client_rows start end_ s id j :
  (id, j) ∈ client_rows start end_ s <->
  exists jid c pr,
    Jobs s !! jid = Some j /\ paid j = Some true /\
    in_range start end_ (paymentDate j) /\
    Contracts s !! ContractId j = Some c /\ ClientId c = id /\
    Profiles s !! id = Some pr.
Proof.
  unfold client_rows. rewrite list_elem_of_omap. split.
  - intros (j' & Hsel & Hrow).
    destruct (joined ClientId s j') as [[cid pr]|] eqn:Hj; [|done].
    injection Hrow as <- <-. apply joined_Some in Hj as (c & Hc & -> & Hpr).
    apply elem_of_selected_jobs in Hsel as ([jid Hjid] & Hpaid & Hrange).
    exists jid, c, pr. done.
  - intros (jid & c & pr & Hjid & Hpaid & Hrange & Hc & <- & Hpr).
    exists j. split.
    + apply elem_of_selected_jobs. split; [by exists jid | done].
    + assert (joined ClientId s j = Some (ClientId c, pr)) as ->; [|done].
      apply joined_Some. by exists c.
Qed.







(** ** Reading contracts and unpaid jobs *)

Lemma NoDup_filter_keys {A} (f : Z * A -> bool) (l : list (Z * A)) :
  NoDup l.*1 -> NoDup (List.filter f l).*1.
Proof.
  induction l as [|r l IH]; cbn [List.filter fmap list_fmap]; [done|].
  intros [Hr Hl]%NoDup_cons. destruct (f r); [|by apply IH].
  cbn. apply NoDup_cons. split; [|by apply IH].
  intros Hin. apply Hr. apply list_elem_of_fmap in Hin as (r' & -> & Hin).
  apply list_elem_of_fmap_2. apply list_elem_of_In in Hin. apply filter_In in Hin as [Hin _].
  by apply list_elem_of_In.
Qed.

Lemma elem_of_Contract_findAll_live profileId profileType s id c :
  (id, c) ∈ Contract_findAll_live profileId profileType s <->
  Contracts s !! id = Some c /\ status c <> terminated /\
  profileTypeToIdKey profileType c = profileId.
Proof.
  unfold Contract_findAll_live.
  rewrite list_elem_of_In, filter_In, <- list_elem_of_In, elem_of_rows.
  cbn [fst snd]. rewrite andb_true_iff, bool_decide_eq_true, Z.eqb_eq. tauto.
Qed.

(** X1.  GET /contracts/:id answers a caller that the contract of that id
    names under the key of the caller's type (a client as [ClientId], a
    contractor as [ContractorId]) with that contract, whose JSON carries
    the id asked for and the caller's id under that key; it answers every
    other request 404 with no body; so two different callers of one type
    are never served the same contract. *)
Theorem getContract_serves_named_party s profileType id :
  let key := fun c =>
    match profileType with
    | client => ClientId c
    | contractor => ContractorId c
    end in
  let name :=
    match profileType with
    | client => "ClientId"%string
    | contractor => "ContractorId"%string
    end in
  (forall profileId c,
      Contracts s !! id = Some c -> key c = profileId ->
      getContract s profileId profileType id = send_json (JObj (Contract_fields id c)) /\
      field "id" (Contract_fields id c) = Some (JInt id) /\
      field name (Contract_fields id c) = Some (JInt profileId) /\
      field "status" (Contract_fields id c) = Some (json_of_status (status c)) /\
      field "terms" (Contract_fields id c) = Some (JStr (terms c))) /\
  (forall profileId,
      (forall c, Contracts s !! id = Some c -> key c <> profileId) ->
      getContract s profileId profileType id = end_empty 404) /\
  (forall a b,
      succeeded (getContract s a profileType id) ->
      succeeded (getContract s b profileType id) -> a = b).
Proof.
  intros key name.
  assert (forall c, profileTypeToIdKey profileType c = key c) as Hkey
    by (intros c; subst key; by destruct profileType).
  split; [|split].
  - intros profileId c Hc Hk. unfold getContract. rewrite Hc, Hkey, Hk, Z.eqb_refl.
    split; [done|]. split; [done|]. subst key name.
    destruct profileType; subst profileId; done.
  - intros profileId Hno. unfold getContract.
    destruct (Contracts s !! id) as [c|] eqn:Hc; [|done].
    rewrite Hkey. destruct (Z.eqb_spec (key c) profileId) as [Heq|Hne]; [|done].
    by destruct (Hno c eq_refl).
  - intros a b. unfold getContract, succeeded.
    destruct (Contracts s !! id) as [c|]; [|done]. rewrite Hkey.
    destruct (Z.eqb_spec (key c) a) as [<-|]; [|done].
    destruct (Z.eqb_spec (key c) b) as [<-|]; done.
Qed.

(** X2.  GET /contracts lists, once each, exactly the contracts that name
    the caller under the key of its type and are not terminated; each
    listed contract is the one GET /contracts/:id serves to that caller,
    and a terminated contract, though served by id, is never listed. *)
Theorem getContracts_lists_live_contracts s profileId profileType :
  let l := Contract_findAll_live profileId profileType s in
  getContracts s profileId profileType
  = send_json (JArr (map (fun r => JObj (Contract_fields r.1 r.2)) l)) /\
  NoDup l.*1 /\
  (forall id c,
      (id, c) ∈ l <->
      Contracts s !! id = Some c /\ status c <> terminated /\
      profileTypeToIdKey profileType c = profileId) /\
  (forall id c,
      (id, c) ∈ l ->
      getContract s profileId profileType id = send_json (JObj (Contract_fields id c))) /\
  (forall id c, Contracts s !! id = Some c -> status c = terminated -> id ∉ l.*1).
Proof.
  intros l. split; [done|]. split; [|split; [|split]].
  - apply NoDup_filter_keys, NoDup_rows_keys.
  - intros id c. apply elem_of_Contract_findAll_live.
  - intros id c (Hc & _ & Hk)%elem_of_Contract_findAll_live.
    unfold getContract. rewrite Hc, Hk, Z.eqb_refl. done.
  - intros id c Hc Hst Hin. apply list_elem_of_fmap in Hin as ([id' c'] & -> & Hin).
    apply elem_of_Contract_findAll_live in Hin as (Hc' & Hlive & _). cbn in Hc.
    rewrite Hc in Hc'. injection Hc' as <-. done.
Qed.

(** X3.  GET /jobs/unpaid lists, once each, exactly the jobs that are not
    paid under a contract in progress that names the caller under the key
    of its type; a paid job is never listed; and for a client the prices
    listed add up to the exposure that bounds its deposits. *)
Theorem getUnpaidJobs_lists_open_jobs s profileId profileType :
  let l := Job_findAll_unpaid profileId profileType s in
  getUnpaidJobs s profileId profileType = send_json (JArr (map UnpaidJob_json l)) /\
  NoDup l.*1.*1 /\
  (forall id j c,
      (id, j, c) ∈ l <->
      Jobs s !! id = Some j /\ not_paid j = true /\
      Contracts s !! ContractId j = Some c /\ status c = in_progress /\
      profileTypeToIdKey profileType c = profileId) /\
  (forall id j, Jobs s !! id = Some j -> paid j = Some true -> id ∉ l.*1.*1) /\
  (profileType = client -> Qsum (map price l.*1.*2) = exposure profileId s).
Proof.
  intros l. split; [done|]. split; [|split; [|split]].
  - apply Job_findAll_unpaid_keys.
  - intros id j c. apply elem_of_Job_findAll_unpaid.
  - intros id j Hj Hpaid Hin.
    apply list_elem_of_fmap in Hin as ([id' j'] & Heq & Hin). cbn in Heq. subst id'.
    apply list_elem_of_fmap in Hin as ([[id' j''] c'] & [= <- <-] & Hin).
    apply elem_of_Job_findAll_unpaid in Hin as (Hj' & Hnp & _).
    assert (j' = j) as -> by congruence. unfold not_paid in Hnp. by rewrite Hpaid in Hnp.
  - intros ->. subst l. by rewrite Job_findAll_unpaid_client.
Qed.

(** ** The outcome of a settlement *)

Lemma payJob_pays s profileId p job_id now j c co :
  Profiles s !! profileId = Some p ->
  Jobs s !! job_id = Some j -> not_paid j = true ->
  Contracts s !! ContractId j = Some c -> status c = in_progress ->
  ClientId c = profileId ->
  Qle_bool (price j) (balance p) = true ->
  debited s j c p !! ContractorId c = Some co ->
  exists cl',
    Profiles (settled s job_id now j c p co) !! ClientId c = Some cl' /\
    payJob s profileId client job_id now =
    (send_json (PaidJob_json job_id (set_paid now j, c, cl')),
     settled s job_id now j c p co).
Proof.
  intros Hp Hj Hnp Hc Hst Hid Hle Hco. subst profileId.
  assert (is_Some (Profiles (settled s job_id now j c p co) !! ClientId c)) as [cl' Hcl'].
  { unfold settled, credited, debited. cbn [Profiles].
    destruct (decide (ContractorId c = ClientId c)) as [->|Hne].
    - rewrite lookup_insert_eq. by eexists.
    - rewrite lookup_insert_ne by done. rewrite lookup_insert_eq. by eexists. }
  exists cl'. split; [done|].
  assert (find_unpaid_job (ClientId c) job_id s = Some (j, c, p)) as Hf.
  { by apply find_unpaid_job_Some. }
  unfold payJob. rewrite bool_decide_false by (intros H; by apply H).
  unfold respond, transaction, payJob_tx, mbind, Tx_bind, bind, Job_findOne_unpaid.
  rewrite Hf. unfold Js.Qltb. rewrite Hle. cbn [negb].
  unfold Profile_decrement. rewrite Hp, Hle.
  unfold Profile_increment. cbn [Profiles with_Profiles].
  fold (debited s j c p). rewrite Hco.
  unfold Job_save_paid, Job_reload. cbn [Jobs with_Jobs with_Profiles].
  rewrite lookup_alter_eq, Hj. cbn [fmap option_fmap option_map].
  match goal with |- context [Job_with_includes ?a ?b ?x] =>
    assert (Job_with_includes a b x = Some (set_paid now j, c, cl')) as ->
  end.
  { apply Job_with_includes_Some. exists c, cl'. cbn [Contracts ContractId set_paid].
    repeat split; done. }
  done.
Qed.

Lemma payJob_refuses_insufficient s profileId p job_id now j c :
  Profiles s !! profileId = Some p ->
  Jobs s !! job_id = Some j -> not_paid j = true ->
  Contracts s !! ContractId j = Some c -> status c = in_progress ->
  ClientId c = profileId ->
  Qle_bool (price j) (balance p) = false ->
  payJob s profileId client job_id now = (end_with 409 msg_insufficient, s).
Proof.
  intros Hp Hj Hnp Hc Hst Hid Hle. subst profileId.
  assert (find_unpaid_job (ClientId c) job_id s = Some (j, c, p)) as Hf.
  { by apply find_unpaid_job_Some. }
  unfold payJob. rewrite bool_decide_false by (intros H; by apply H).
  unfold respond, transaction, payJob_tx, mbind, Tx_bind, bind, Job_findOne_unpaid.
  rewrite Hf. unfold Js.Qltb. rewrite Hle. done.
Qed.

Lemma payJob_contractor_gone s profileId p job_id now j c :
  Profiles s !! profileId = Some p ->
  Jobs s !! job_id = Some j -> not_paid j = true ->
  Contracts s !! ContractId j = Some c -> status c = in_progress ->
  ClientId c = profileId ->
  Qle_bool (price j) (balance p) = true ->
  Profiles s !! ContractorId c = None ->
  payJob s profileId client job_id now = (end_with 500 "Error updating contractor", s).
Proof.
  intros Hp Hj Hnp Hc Hst Hid Hle Hco. subst profileId.
  assert (find_unpaid_job (ClientId c) job_id s = Some (j, c, p)) as Hf.
  { by apply find_unpaid_job_Some. }
  assert (ContractorId c <> ClientId c) as Hne by (intros Heq; congruence).
  unfold payJob. rewrite bool_decide_false by (intros H; by apply H).
  unfold respond, transaction, payJob_tx, mbind, Tx_bind, bind, Job_findOne_unpaid.
  rewrite Hf. unfold Js.Qltb. rewrite Hle. cbn [negb].
  unfold Profile_decrement. rewrite Hp, Hle.
  unfold Profile_increment. cbn [Profiles with_Profiles].
  rewrite lookup_insert_ne by congruence. rewrite Hco. done.
Qed.

(** X4.  What a client gets for a job it may pay (of that id, not paid,
    under its own contract in progress): the insufficient-funds conflict
    exactly when its balance is below the price, the 500 answer exactly
    when the balance covers the price but the contractor named by the
    contract has no profile, and success exactly when the balance covers
    the price and the contractor has a profile.  The two refusals leave
    the store as it was. *)
Theorem payJob_outcome s profileId p job_id now j c :
  Profiles s !! profileId = Some p ->
  Jobs s !! job_id = Some j -> not_paid j = true ->
  Contracts s !! ContractId j = Some c -> status c = in_progress ->
  ClientId c = profileId ->
  let r := payJob s profileId client job_id now in
  (r = (end_with 409 msg_insufficient, s) <-> (balance p < price j)%Q) /\
  (r = (end_with 500 "Error updating contractor", s) <->
   (price j <= balance p)%Q /\ Profiles s !! ContractorId c = None) /\
  (succeeded r.1 <->
   (price j <= balance p)%Q /\ is_Some (Profiles s !! ContractorId c)).
Proof.
  intros Hp Hj Hnp Hc Hst Hid r. subst r.
  destruct (Qle_bool (price j) (balance p)) eqn:Hle.
  - assert (price j <= balance p)%Q as Hle' by (by apply Qle_bool_iff).
    destruct (Profiles s !! ContractorId c) as [co0|] eqn:Hco.
    + assert (is_Some (debited s j c p !! ContractorId c)) as [co Hco'].
      { unfold debited. destruct (decide (ClientId c = ContractorId c)) as [->|Hne].
        - rewrite lookup_insert_eq. by eexists.
        - rewrite lookup_insert_ne by done. by eexists. }
      destruct (payJob_pays s profileId p job_id now j c co Hp Hj Hnp Hc Hst Hid Hle Hco')
        as (cl' & _ & ->).
      split; [|split].
      * split; [done|]. intros Hlt. lra.
      * split; [done|]. intros [_ ?]. done.
      * split; [done|]. intros _. reflexivity.
    + rewrite (payJob_contractor_gone s profileId p job_id now j c Hp Hj Hnp Hc Hst Hid Hle Hco).
      split; [|split].
      * split; [done|]. intros Hlt. lra.
      * done.
      * split; [done|]. intros [_ [? ?]]. done.
  - assert (balance p < price j)%Q as Hlt.
    { apply Qnot_le_lt. rewrite <- Qle_bool_iff. congruence. }
    rewrite (payJob_refuses_insufficient s profileId p job_id now j c Hp Hj Hnp Hc Hst Hid Hle).
    split; [|split].
    + done.
    + split; [done|]. intros [Hle' _]. lra.
    + split; [done|]. intros [Hle' _]. lra.
Qed.

(** X5.  The answer of a successful settlement is read back from the
    committed store: it is the JSON of the job row as committed (paid,
    with the payment date of the call), with its contract and with the
    caller's profile row as committed, that is, after the debit. *)
Theorem payJob_answers_committed_rows s profileId profileType job_id now :
  succeeded (payJob s profileId profileType job_id now).1 ->
  let r := payJob s profileId profileType job_id now in
  exists j' c cl',
    Jobs r.2 !! job_id = Some j' /\
    paid j' = Some true /\ paymentDate j' = Some now /\
    Contracts r.2 !! ContractId j' = Some c /\
    Profiles r.2 !! profileId = Some cl' /\
    r.1 = send_json (PaidJob_json job_id (j', c, cl')).
Proof.
  intros Hok r. subst r.
  destruct (payJob_succeeded _ _ _ _ _ Hok) as (-> & j & c & cl & co & Hf & Hle & Hco & _).
  apply find_unpaid_job_Some in Hf as (Hj & Hnp & Hc & Hst & Hid & Hcl).
  rewrite Hid in Hcl.
  destruct (payJob_pays s profileId cl job_id now j c co Hcl Hj Hnp Hc Hst Hid Hle Hco)
    as (cl' & Hcl' & ->).
  exists (set_paid now j), c, cl'. cbn [fst snd].
  split; [|split; [|split; [|split; [|split]]]]; try done.
  - unfold settled. cbn [Jobs]. by rewrite lookup_alter_eq, Hj.
  - by rewrite <- Hid.
Qed.

(** ** Sums over a table *)




Lemma payJob_settled s profileId profileType job_id now :
  (payJob s profileId profileType job_id now).2 = s \/
  exists j c cl co,
    Jobs s !! job_id = Some j /\ not_paid j = true /\
    Contracts s !! ContractId j = Some c /\ status c = in_progress /\
    ClientId c = profileId /\ Profiles s !! ClientId c = Some cl /\
    Qle_bool (price j) (balance cl) = true /\
    debited s j c cl !! ContractorId c = Some co /\
    (payJob s profileId profileType job_id now).2 = settled s job_id now j c cl co.
Proof.
  unfold payJob. case_bool_decide; [by left|].
  destruct (respond_rolls_back (payJob_tx profileId job_id now) s) as [Hok|]; [|by left].
  right. apply respond_succeeded in Hok as [res Hres].
  - apply payJob_tx_returns in Hres as (j & c & cl & co & Hf & Hle & Hco & Hs').
    apply find_unpaid_job_Some in Hf as (? & ? & ? & ? & ? & ?).
    exists j, c, cl, co. done.
  - intros c m Hthrow ->. apply payJob_tx_throws in Hthrow. lia.
Qed.

(** ** Paid jobs and contracts are not changed *)

Lemma step_keeps_paid_jobs s op i j :
  Jobs s !! i = Some j -> paid j = Some true ->
  Jobs (step s op) !! i = Some j /\ Contracts (step s op) = Contracts s.
Proof.
  intros Hj Hpaid. destruct op as [profileId profileType job_id now|profileId profileType amount];
    cbn [step].
  - destruct (payJob_settled s profileId profileType job_id now)
      as [->|(j0 & c & cl & co & Hj0 & Hnp & _ & _ & _ & _ & _ & _ & ->)]; [done|].
    unfold settled. cbn [Jobs Contracts]. split; [|done].
    destruct (decide (i = job_id)) as [->|Hne]; [|by rewrite lookup_alter_ne].
    exfalso. assert (j0 = j) as -> by congruence.
    unfold not_paid in Hnp. by rewrite Hpaid in Hnp.
  - destruct (deposit_state s profileId profileType amount) as [->|(a & _ & ->)]; done.
Qed.

(** X7.  Over any sequence of settlements and deposits a job that is paid
    keeps its row as it is (price, payment date and paid mark), so no job
    goes back to unpaid and none is paid twice; and the table of contracts
    is never changed. *)
Theorem paid_jobs_are_final ops s i j :
  Jobs s !! i = Some j -> paid j = Some true ->
  Jobs (run ops s) !! i = Some j /\ Contracts (run ops s) = Contracts s.
Proof.
  revert s. induction ops as [|op ops IH]; intros s Hj Hpaid; [done|].
  cbn [run fold_left]. destruct (step_keeps_paid_jobs s op i j Hj Hpaid) as [Hj' Hc'].
  destruct (IH (step s op) Hj' Hpaid) as [Hj'' Hc'']. split; [done|].
  etrans; [exact Hc'' | exact Hc'].
Qed.

(** ** A settlement closes the job *)





(** ** The deposit limit bounds each deposit, not their sum *)

(** X9.  A deposit changes no job and no contract, so the sum that bounds
    it stays what it was: a deposit of a finite amount that a client has
    made once with success succeeds again whenever it is repeated, and
    after [n] such deposits the listing of its unpaid jobs is what it
    was and its balance is the result of adding the amount [n] times,
    each addition rounded by the engine. *)
Theorem deposits_within_limit_add_up s profileId p amount a n :
  Profiles s !! profileId = Some p ->
  Js.parseFloat_param amount = Js.Fin a ->
  succeeded (deposit s profileId client amount).1 ->
  let s_n := run (replicate n (Deposit profileId client amount)) s in
  succeeded (deposit s_n profileId client amount).1 /\
  Job_findAll_unpaid profileId client s_n = Job_findAll_unpaid profileId client s /\
  exists p',
    Profiles s_n !! profileId = Some p' /\
    balance p' = Nat.iter n (fun b => fl (b + a)) (balance p).
Proof.
  intros Hp Ha Hok. cbn zeta. revert s p Hp Hok.
  induction n as [|n IH]; intros s p Hp Hok.
  - split; [done|]. split; [done|]. by exists p.
  - rewrite replicate_S. cbn [run fold_left step].
    assert (over_limit s profileId a = false) as Hov.
    { rewrite (deposit_finite _ _ _ _ _ Hp Ha) in Hok.
      by destruct (over_limit s profileId a). }
    rewrite (deposit_finite _ _ _ _ _ Hp Ha), Hov. cbn [snd].
    assert (Profiles (deposited s profileId a) !! profileId
            = Some (set_balance (fl (balance p + a)) p)) as Hp'.
    { unfold deposited. cbn [Profiles with_Profiles]. by rewrite lookup_alter_eq, Hp. }
    assert (succeeded (deposit (deposited s profileId a) profileId client amount).1) as Hok'.
    { rewrite (deposit_finite _ _ _ _ _ Hp' Ha).
      change (over_limit (deposited s profileId a) profileId a)
        with (over_limit s profileId a).
      by rewrite Hov. }
    destruct (IH (deposited s profileId a) _ Hp' Hok') as (Hn & Hl & p' & Hp'' & Hbal).
    split; [exact Hn|]. split; [exact Hl|]. exists p'. split; [exact Hp''|].
    rewrite Hbal. cbn [balance set_balance]. by rewrite Nat.iter_succ_r.
Qed.

(** ** From settlement to the statistics *)

(** X11.  A job settled at instant [now] is counted by both statistics
    for every date range that contains [now]: its row, as paid, is among
    the rows grouped under the profession of the contract's contractor
    (which the settlement does not change) and among those grouped under
    the paying client. *)
Theorem payJob_is_counted s profileId profileType job_id now start end_ :
  succeeded (payJob s profileId profileType job_id now).1 ->
  within start end_ now ->
  let s' := (payJob s profileId profileType job_id now).2 in
  exists j c co,
    Jobs s !! job_id = Some j /\ Contracts s !! ContractId j = Some c /\
    Profiles s !! ContractorId c = Some co /\
    (profession co, set_paid now j) ∈ profession_rows start end_ s' /\
    (profileId, set_paid now j) ∈ client_rows start end_ s'.
Proof.
  intros Hok [Hstart Hend] s'.
  destruct (payJob_succeeded _ _ _ _ _ Hok) as (_ & j & c & cl & co1 & Hf & _ & Hco1 & Hs').
  apply find_unpaid_job_Some in Hf as (Hj & Hnp & Hc & Hst & Hid & Hcl).
  subst s'. rewrite Hs'. clear Hs' Hok.
  assert (exists co, Profiles s !! ContractorId c = Some co /\ profession co1 = profession co)
    as (co & Hco & Hprof).
  { unfold debited in Hco1. destruct (decide (ClientId c = ContractorId c)) as [Heq|Hne].
    - rewrite Heq, lookup_insert_eq in Hco1. injection Hco1 as <-.
      exists cl. split; [by rewrite <- Heq | done].
    - rewrite lookup_insert_ne in Hco1 by done. by exists co1. }
  assert (Jobs (settled s job_id now j c cl co1) !! job_id = Some (set_paid now j)) as Hj'.
  { unfold settled. cbn [Jobs]. by rewrite lookup_alter_eq, Hj. }
  assert (in_range start end_ (paymentDate (set_paid now j))) as Hrange.
  { split; intros b Hb; exists now; (split; [done|]); [by apply Hstart | by apply Hend]. }
  exists j, c, co. split; [done|]. split; [done|]. split; [done|]. split.
  - apply elem_of_profession_rows.
    exists job_id, c, (set_balance (fl (balance co1 + price j)) co1).
    split; [done|]. split; [done|]. split; [done|]. split; [done|]. split; [|done].
    unfold settled, credited. cbn [Profiles]. by rewrite lookup_insert_eq.
  - apply elem_of_client_rows.
    assert (is_Some (Profiles (settled s job_id now j c cl co1) !! ClientId c)) as [cl' Hcl'].
    { unfold settled, credited, debited. cbn [Profiles].
      destruct (decide (ContractorId c = ClientId c)) as [->|Hne].
      - rewrite lookup_insert_eq. by eexists.
      - rewrite lookup_insert_ne by done. rewrite lookup_insert_eq. by eexists. }
    exists job_id, c, cl'. rewrite <- Hid. done.
Qed.

(** ** What a deposit leaves alone *)

Lemma omap_pointwise {A B} (f g : A -> option B) (l : list A) :
  (forall x, f x = g x) -> omap f l = omap g l.
Proof.
  intros Hfg. induction l as [|x l IH]; cbn [omap list_omap]; [done|].
  by rewrite Hfg, IH.
Qed.

Lemma joined_deposited fk s profileId a j :
  joined fk (deposited s profileId a) j =
  match joined fk s j with
  | Some (k, p) =>
      Some (k, if decide (k = profileId) then set_balance (fl (balance p + a)) p else p)
  | None => None
  end.
Proof.
  unfold joined, deposited. cbn [Contracts Profiles with_Profiles].
  destruct (Contracts s !! ContractId j) as [c|]; [|done].
  destruct (decide (fk c = profileId)) as [Heq|Hne].
  - rewrite Heq, lookup_alter_eq. destruct (Profiles s !! profileId); cbn; [|done].
    by rewrite decide_True.
  - rewrite lookup_alter_ne by done. destruct (Profiles s !! fk c); [|done].
    by rewrite decide_False.
Qed.

Lemma profession_rows_deposited start end_ s profileId a :
  profession_rows start end_ (deposited s profileId a) = profession_rows start end_ s.
Proof.
  unfold profession_rows.
  change (selected_jobs start end_ (deposited s profileId a))
    with (selected_jobs start end_ s).
  apply omap_pointwise. intros j. rewrite joined_deposited.
  destruct (joined ContractorId s j) as [[k p]|]; [|done]. by destruct (decide (k = profileId)).
Qed.

Lemma client_rows_deposited start end_ s profileId a :
  client_rows start end_ (deposited s profileId a) = client_rows start end_ s.
Proof.
  unfold client_rows.
  change (selected_jobs start end_ (deposited s profileId a))
    with (selected_jobs start end_ s).
  apply omap_pointwise. intros j. rewrite joined_deposited.
  by destruct (joined ClientId s j) as [[k p]|].
Qed.

Lemma fullName_of_deposited s profileId a id :
  fullName_of (deposited s profileId a) id = fullName_of s id.
Proof.
  unfold fullName_of, deposited. cbn [Profiles with_Profiles].
  destruct (decide (id = profileId)) as [->|Hne].
  - rewrite lookup_alter_eq. by destruct (Profiles s !! profileId).
  - by rewrite lookup_alter_ne.
Qed.

(** X12.  Whatever its outcome, a deposit changes neither the table of
    jobs nor the table of contracts, and every read handler answers after
    it as before it: contract by id, list of contracts, unpaid jobs, best
    profession and best clients. *)
Theorem deposit_leaves_reads_unchanged s profileId profileType amount :
  let s' := (deposit s profileId profileType amount).2 in
  Jobs s' = Jobs s /\ Contracts s' = Contracts s /\
  (forall caller callerType id,
      getContract s' caller callerType id = getContract s caller callerType id) /\
  (forall caller callerType,
      getContracts s' caller callerType = getContracts s caller callerType) /\
  (forall caller callerType,
      getUnpaidJobs s' caller callerType = getUnpaidJobs s caller callerType) /\
  (forall start end_, bestProfession s' start end_ = bestProfession s start end_) /\
  (forall start end_ limit,
      bestClients s' start end_ limit = bestClients s start end_ limit).
Proof.
  intros s'. subst s'.
  destruct (deposit_state s profileId profileType amount) as [->|(a & _ & ->)]; [done|].
  split; [done|]. split; [done|]. split; [done|]. split; [done|]. split; [done|]. split.
  - intros start end_. unfold bestProfession, topContractor.
    by rewrite profession_rows_deposited.
  - intros start end_ limit. unfold bestClients, topClients.
    rewrite client_rows_deposited.
    destruct (sql_limit _ _) as [e|gs]; [done|]. do 3 f_equal.
    apply map_ext. intros g. unfold client_json. by rewrite fullName_of_deposited.
Qed.

(** ** Rows are neither created nor deleted *)

Lemma keeps_rows_refl {A} (R : A -> A -> Prop) (t : gmap Z A) :
  (forall x, R x x) -> keeps_rows R t t.
Proof. intros HR i. by destruct (t !! i). Qed.

Lemma keeps_rows_trans {A} (R : A -> A -> Prop) (t1 t2 t3 : gmap Z A) :
  (forall x y z, R x y -> R y z -> R x z) ->
  keeps_rows R t1 t2 -> keeps_rows R t2 t3 -> keeps_rows R t1 t3.
Proof.
  intros HR H12 H23 i. specialize (H12 i). specialize (H23 i).
  destruct (t1 !! i), (t2 !! i), (t3 !! i); try done. by eapply HR.
Qed.

Lemma keeps_rows_insert {A} (R : A -> A -> Prop) (t : gmap Z A) k x y :
  (forall x, R x x) -> t !! k = Some x -> R x y -> keeps_rows R t (<[k:=y]> t).
Proof.
  intros HR Hk Hxy i. destruct (decide (i = k)) as [->|Hne].
  - by rewrite lookup_insert_eq, Hk.
  - rewrite lookup_insert_ne by done. by destruct (t !! i).
Qed.

Lemma keeps_rows_alter {A} (R : A -> A -> Prop) (f : A -> A) (t : gmap Z A) k :
  (forall x, R x x) -> (forall x, R x (f x)) -> keeps_rows R t (alter f k t).
Proof.
  intros HR Hf i. destruct (decide (i = k)) as [->|Hne].
  - rewrite lookup_alter_eq. destruct (t !! k); cbn; [apply Hf | done].
  - rewrite lookup_alter_ne by done. by destruct (t !! i).
Qed.

Lemma same_identity_refl p : same_identity p p.
Proof. by repeat split. Qed.

Lemma same_identity_trans p1 p2 p3 :
  same_identity p1 p2 -> same_identity p2 p3 -> same_identity p1 p3.
Proof. intros (? & ? & ? & ?) (? & ? & ? & ?). repeat split; congruence. Qed.

Lemma same_work_refl j : same_work j j.
Proof. by repeat split. Qed.

Lemma same_work_trans j1 j2 j3 : same_work j1 j2 -> same_work j2 j3 -> same_work j1 j3.
Proof. intros (? & ? & ?) (? & ? & ?). repeat split; congruence. Qed.

Lemma step_keeps_rows s op :
  Contracts (step s op) = Contracts s /\
  keeps_rows same_identity (Profiles s) (Profiles (step s op)) /\
  keeps_rows same_work (Jobs s) (Jobs (step s op)).
Proof.
  destruct op as [profileId profileType job_id now|profileId profileType amount]; cbn [step].
  - destruct (payJob_settled s profileId profileType job_id now)
      as [->|(j & c & cl & co & _ & _ & _ & _ & _ & Hcl & _ & Hco & ->)].
    + split; [done|]. split; apply keeps_rows_refl;
        [apply same_identity_refl | apply same_work_refl].
    + unfold settled, credited. cbn [Contracts Profiles Jobs].
      split; [done|]. split.
      * apply (keeps_rows_trans _ _ (debited s j c cl) _ same_identity_trans).
        -- unfold debited. eapply keeps_rows_insert; [apply same_identity_refl | exact Hcl |].
           by repeat split.
        -- eapply keeps_rows_insert; [apply same_identity_refl | exact Hco |].
           by repeat split.
      * apply keeps_rows_alter; [apply same_work_refl|]. intros x. by repeat split.
  - destruct (deposit_state s profileId profileType amount) as [->|(a & _ & ->)].
    + split; [done|]. split; apply keeps_rows_refl;
        [apply same_identity_refl | apply same_work_refl].
    + unfold deposited. cbn [Contracts Profiles Jobs with_Profiles].
      split; [done|]. split.
      * apply keeps_rows_alter; [apply same_identity_refl|]. intros x. by repeat split.
      * apply keeps_rows_refl, same_work_refl.
Qed.

(** X13.  Over any sequence of settlements and deposits no profile, job
    or contract is created or deleted; a profile keeps its names,
    profession and type (only its balance may change); a job keeps its
    description, price and contract (only its paid mark and payment date
    may change); and the contracts are untouched. *)
Theorem requests_keep_rows ops s :
  Contracts (run ops s) = Contracts s /\
  keeps_rows same_identity (Profiles s) (Profiles (run ops s)) /\
  keeps_rows same_work (Jobs s) (Jobs (run ops s)).
Proof.
  revert s. induction ops as [|op ops IH]; intros s.
  - split; [done|]. split; apply keeps_rows_refl;
      [apply same_identity_refl | apply same_work_refl].
  - cbn [run fold_left]. destruct (step_keeps_rows s op) as (Hc & Hp & Hj).
    destruct (IH (step s op)) as (Hc' & Hp' & Hj').
    split; [etrans; [exact Hc' | exact Hc]|]. split.
    + eapply keeps_rows_trans; [apply same_identity_trans | exact Hp | exact Hp'].
    + eapply keeps_rows_trans; [apply same_work_trans | exact Hj | exact Hj'].
Qed.

(** ** Paying what is listed *)

(** X14.  A client can pay exactly the jobs that GET /jobs/unpaid lists
    for it: its settlement request is answered 404 exactly when the job id
    is not among the ids listed. *)
Theorem payJob_NotFound_iff_not_listed s profileId p job_id now :
  Profiles s !! profileId = Some p ->
  NotFound (payJob s profileId client job_id now).1 <->
  job_id ∉ (Job_findAll_unpaid profileId client s).*1.*1.
Proof.
  intros Hp. rewrite payJob_client_NotFound, (find_unpaid_job_None _ _ _ _ Hp).
  apply not_iff_compat. split.
  - intros (j & c & Hj & Hnp & Hc & Hst & Hid).
    apply list_elem_of_fmap. exists (job_id, j). split; [done|].
    apply list_elem_of_fmap. exists (job_id, j, c). split; [done|].
    by apply elem_of_Job_findAll_unpaid.
  - intros Hin. apply list_elem_of_fmap in Hin as ([id j] & Heq & Hin). cbn in Heq. subst id.
    apply list_elem_of_fmap in Hin as ([[id' j'] c] & [= <- <-] & Hin).
    apply elem_of_Job_findAll_unpaid in Hin as (Hj & Hnp & Hc & Hst & Hid).
    exists j, c. done.
Qed.

End Handlers.

(** ** The engine in double precision *)

Lemma rne_nonneg p q : 0 <= p -> 0 < q -> 0 <= Js.rne p q.
Proof.
  intros Hp Hq. unfold Js.rne.
  assert (0 <= p / q) by (apply Z.div_pos; lia).
  destruct (2 * (p mod q) ?= q); [destruct (Z.even (p / q))|..]; lia.
Qed.

Lemma scale2_pos n d k :
  0 <= n -> 0 < d -> 0 <= (Js.scale2 n d k).1 /\ 0 < (Js.scale2 n d k).2.
Proof.
  intros Hn Hd. unfold Js.scale2. destruct (Z.leb_spec 0 k); cbn [fst snd].
  - split; [done|]. apply Z.mul_pos_pos; [done|]. by apply Z.pow_pos_nonneg.
  - split; [|done]. apply Z.mul_nonneg_nonneg; [done|]. apply Z.pow_nonneg. lia.
Qed.

Lemma of_pow2_nonneg r k : 0 <= r -> (0 <= Js.of_pow2 r k)%Q.
Proof.
  intros Hr. unfold Js.of_pow2. destruct (0 <=? k).
  - change 0%Q with (inject_Z 0). rewrite <- Zle_Qle.
    apply Z.mul_nonneg_nonneg; [done|]. apply Z.pow_nonneg. lia.
  - rewrite Qred_correct. unfold Qle. cbn. lia.
Qed.

Lemma nearest_positive_nonneg n d : (0 <= Js.nearest_positive n d)%Q.
Proof.
  unfold Js.nearest_positive, Js.nearest.
  destruct (scale2_pos (Z.pos n) (Z.pos d)
              (Z.max (Js.ilog2 (Z.pos n) (Z.pos d)) (-1022) - 52)) as [Hn Hd]; [lia..|].
  destruct (Js.scale2 _ _ _) as [n' d']. cbn [fst snd] in *.
  apply of_pow2_nonneg. by apply rne_nonneg.
Qed.

(** Rounding to the nearest double does not take a value that is not
    negative below zero. *)
Lemma nearest_double_nonneg x : (0 <= x)%Q -> (0 <= Js.nearest_double x)%Q.
Proof.
  intros Hx. unfold Js.nearest_double. destruct x as [[|n|n] d]; cbn [Qnum Qden].
  - done.
  - apply nearest_positive_nonneg.
  - exfalso. unfold Qle in Hx. cbn in Hx. lia.
Qed.

Lemma insert_desc_Permutation {A} (key : A -> Q) x l : insert_desc key x l ≡ₚ x :: l.
Proof.
  induction l as [|y l IH]; cbn; [done|].
  destruct (Js.Qltb (key y) (key x)); [done|]. rewrite IH. apply Permutation_swap.
Qed.

Lemma insertion_desc_Permutation {A} (key : A -> Q) l : insertion_desc key l ≡ₚ l.
Proof.
  induction l as [|x l IH]; cbn; [done|].
  fold (insertion_desc key l). by rewrite insert_desc_Permutation, IH.
Qed.

Lemma insert_desc_sorted {A} (key : A -> Q) x l :
  StronglySorted (fun a b => (key b <= key a)%Q) l ->
  StronglySorted (fun a b => (key b <= key a)%Q) (insert_desc key x l).
Proof.
  induction 1 as [|y l Hl IH Hy]; cbn [insert_desc].
  - by repeat constructor.
  - unfold Js.Qltb. destruct (Qle_bool (key x) (key y)) eqn:Hle; cbn [negb].
    + apply Qle_bool_iff in Hle. constructor; [exact IH|].
      rewrite insert_desc_Permutation. by constructor.
    + assert (key y < key x)%Q as Hlt.
      { apply Qnot_le_lt. rewrite <- Qle_bool_iff. congruence. }
      constructor; [by constructor|]. constructor; [lra|].
      eapply Forall_impl; [exact Hy|]. intros z Hz. cbn in Hz. lra.
Qed.

Lemma insertion_desc_sorted {A} (key : A -> Q) l :
  StronglySorted (fun a b => (key b <= key a)%Q) (insertion_desc key l).
Proof.
  induction l as [|x l IH]; cbn; [constructor|].
  fold (insertion_desc key l). by apply insert_desc_sorted.
Qed.

(** The engine of the sample runs: every result is rounded to the nearest
    double. *)
#[global] Instance Binary64 : Engine := {|
  fl := Js.nearest_double;
  fl_nonneg := nearest_double_nonneg;
  order_desc := @insertion_desc;
  order_desc_Permutation := @insertion_desc_Permutation;
  order_desc_sorted := @insertion_desc_sorted |}.

(** ** The properties on the sample stores *)



(** The client of the sample store asks for job 4, which does not exist,
    and is answered 404. *)
Lemma payJob_Forbidden_or_NotFound_witness :
  Profiles Fixture.open_work !! 1 = Some (Fixture.profile client "Harry" "Wizard" 100) /\
  NotFound (payJob Fixture.open_work 1 client 4 1000).1 /\
  ~ payable Fixture.open_work 1 4.
Proof.
  assert (Profiles Fixture.open_work !! 1
          = Some (Fixture.profile client "Harry" "Wizard" 100)) as Hp
    by (vm_compute; reflexivity).
  split; [exact Hp|].
  destruct (payJob_Forbidden_or_NotFound Fixture.open_work 1 _ 4 1000 Hp) as (_ & Hiff & _).
  assert (NotFound (payJob Fixture.open_work 1 client 4 1000).1) as Hnf
    by (vm_compute; reflexivity).
  split; [exact Hnf|].
  apply (proj1 (Hiff eq_refl)). exact Hnf.
Defined.



(** The client of the sample store, whose balance is 100, deposits -500. *)
Lemma deposit_negative_accepted_witness :
  succeeded (deposit Fixture.open_work 1 client (Some "-500"%string)).1 /\
  exists p',
    Profiles (deposit Fixture.open_work 1 client (Some "-500"%string)).2 !! 1 = Some p' /\
    balance p' = fl (100 + -500) /\ (100 + -500 < 100)%Q /\
    same_identity (Fixture.profile client "Harry" "Wizard" 100) p'.
Proof.
  apply (deposit_negative_accepted Fixture.open_work 1
           (Fixture.profile client "Harry" "Wizard" 100) (Some "-500"%string) (-500)).
  - vm_compute; reflexivity.
  - reflexivity.
  - vm_compute; reflexivity.
  - reflexivity.
  - vm_compute. discriminate.
Defined.

(** Two negative amounts that do not bring the balance down.  [-1e400]
    reads as minus infinity and the deposit fails, with status 500 and the
    balance as it was.  [-1e-30] is accepted, and the balance of 100 it is
    added to is 100 afterwards: the sum rounds to 100. *)
Lemma deposit_negative_not_decreasing :
  Js.parseFloat_param (Some "-1e400"%string) = Js.NInf /\
  (0 <= exposure 1 Fixture.open_work)%Q /\
  InternalError (deposit Fixture.open_work 1 client (Some "-1e400"%string)).1 /\
  (deposit Fixture.open_work 1 client (Some "-1e400"%string)).2 = Fixture.open_work /\
  Js.parseFloat_param (Some "-1e-30"%string) = Js.Fin (Js.double "-1e-30") /\
  (Js.double "-1e-30" < 0)%Q /\
  succeeded (deposit Fixture.open_work 1 client (Some "-1e-30"%string)).1 /\
  balance <$> Profiles Fixture.open_work !! 1 = Some 100%Q /\
  balance <$> Profiles (deposit Fixture.open_work 1 client (Some "-1e-30"%string)).2 !! 1
  = Some 100%Q.
Proof.
  repeat split; try (vm_compute; reflexivity). vm_compute. discriminate.
Qed.

(** A zero and a negative amount are accepted, and the negative one
    changes the balance: the client of the sample store goes from 100 to
    -400. *)
Lemma deposit_nonpositive_accepted :
  Js.parseFloat_param (Some "0"%string) = Js.Fin 0 /\
  succeeded (deposit Fixture.open_work 1 client (Some "0"%string)).1 /\
  Js.parseFloat_param (Some "-500"%string) = Js.Fin (-500) /\
  succeeded (deposit Fixture.open_work 1 client (Some "-500"%string)).1 /\
  ~ InvalidArgument (deposit Fixture.open_work 1 client (Some "-500"%string)).1 /\
  balance <$> Profiles Fixture.open_work !! 1 = Some 100%Q /\
  balance <$> Profiles (deposit Fixture.open_work 1 client (Some "-500"%string)).2 !! 1
  = Some (100 + -500)%Q.
Proof.
  repeat split; try (vm_compute; reflexivity). vm_compute. discriminate.
Qed.

Lemma open_work_balances_nonneg : balances_nonneg Fixture.open_work.
Proof.
  unfold balances_nonneg. apply map_Forall_to_list.
  vm_compute. repeat constructor; discriminate.
Qed.

Lemma open_work_prices_nonneg : prices_nonneg Fixture.open_work.
Proof.
  unfold prices_nonneg. apply map_Forall_to_list.
  vm_compute. repeat constructor; discriminate.
Qed.

(** The client of the sample store pays job 1 and then deposits 10. *)
Lemma balances_stay_nonneg_witness :
  balances_nonneg
    (run [PayJob 1 client 1 1000; Deposit 1 client (Some "10"%string)] Fixture.open_work).
Proof.
  apply balances_stay_nonneg.
  - exact open_work_balances_nonneg.
  - exact open_work_prices_nonneg.
  - repeat constructor. intros a Ha. vm_compute in Ha. injection Ha as <-. discriminate.
Defined.

(** A deposit of -500 by the client of the sample store, whose balance is
    100, is committed and leaves the balance below zero. *)
Lemma deposit_breaks_balance_invariant :
  balances_nonneg Fixture.open_work /\
  succeeded (deposit Fixture.open_work 1 client (Some "-500"%string)).1 /\
  (exists p',
      Profiles (step Fixture.open_work (Deposit 1 client (Some "-500"%string))) !! 1 = Some p' /\
      (balance p' < 0)%Q) /\
  ~ balances_nonneg (step Fixture.open_work (Deposit 1 client (Some "-500"%string))).
Proof.
  split; [exact open_work_balances_nonneg|].
  split; [vm_compute; reflexivity|].
  assert (Profiles (step Fixture.open_work (Deposit 1 client (Some "-500"%string))) !! 1
          = Some (Fixture.profile client "Harry" "Wizard" (-400))) as Hp
    by (vm_compute; reflexivity).
  split.
  - eexists. split; [exact Hp|]. reflexivity.
  - intros Hb. specialize (Hb _ _ Hp). vm_compute in Hb. by apply Hb.
Qed.

(** Over the sample of paid jobs (A earned 150, B earned 120) the answer
    names profession A and carries no sum: it has the one field
    [profession]. *)
Lemma bestProfession_omits_total :
  earned_by (profession_rows None None Fixture.paid_by_profession) "A"%string = 150%Q /\
  exists fields,
    bestProfession Fixture.paid_by_profession None None = send_json (JObj fields) /\
    field "profession" fields = Some (JStr "A") /\
    field "totalPaid" fields = None /\
    length fields = 1%nat.
Proof.
  split; [vm_compute; reflexivity|].
  exists [("profession"%string, JStr "A")]. repeat split; vm_compute; reflexivity.
Qed.



(** The client of the sample store can pay job 1 (40 of its 100), cannot
    pay job 3 (130), and job 2 names a contractor without a profile. *)
Lemma payJob_outcome_witness :
  succeeded (payJob Fixture.open_work 1 client 1 1000).1 /\
  payJob Fixture.open_work 1 client 3 1000 = (end_with 409 msg_insufficient, Fixture.open_work) /\
  payJob Fixture.open_work 1 client 2 1000 =
  (end_with 500 "Error updating contractor", Fixture.open_work).
Proof.
  assert (Profiles Fixture.open_work !! 1
          = Some (Fixture.profile client "Harry" "Wizard" 100)) as Hp
    by (vm_compute; reflexivity).
  split; [|split].
  - apply (payJob_outcome Fixture.open_work 1 _ 1 1000 (Fixture.unpaid_job 40 1)
             (Fixture.contract in_progress 1 2) Hp);
      try (vm_compute; reflexivity).
    split; [vm_compute; discriminate|]. vm_compute. by eexists.
  - apply (payJob_outcome Fixture.open_work 1 _ 3 1000 (Fixture.unpaid_job 130 1)
             (Fixture.contract in_progress 1 2) Hp);
      try (vm_compute; reflexivity).
  - apply (payJob_outcome Fixture.open_work 1 _ 2 1000 (Fixture.unpaid_job 30 2)
             (Fixture.contract in_progress 1 7) Hp);
      try (vm_compute; reflexivity).
    split; [vm_compute; discriminate | vm_compute; reflexivity].
Defined.

(** The client of the sample store pays job 1: the answer carries the
    client's balance after the debit, 60. *)
Lemma payJob_answers_committed_rows_witness :
  exists j' c cl',
    Jobs (payJob Fixture.open_work 1 client 1 1000).2 !! 1 = Some j' /\
    paid j' = Some true /\ paymentDate j' = Some 1000 /\
    Contracts (payJob Fixture.open_work 1 client 1 1000).2 !! ContractId j' = Some c /\
    Profiles (payJob Fixture.open_work 1 client 1 1000).2 !! 1 = Some cl' /\
    (payJob Fixture.open_work 1 client 1 1000).1 = send_json (PaidJob_json 1 (j', c, cl')).
Proof.
  apply (payJob_answers_committed_rows Fixture.open_work 1 client 1 1000).
  vm_compute. reflexivity.
Defined.

(** The client of the sample store pays job 1, then tries to pay it again
    and deposits: the row of job 1 stays as the first payment left it. *)
Lemma paid_jobs_are_final_witness :
  let s1 := step Fixture.open_work (PayJob 1 client 1 1000) in
  let ops := [PayJob 1 client 1 2000; Deposit 1 client (Some "10"%string);
              PayJob 1 client 3 3000] in
  Jobs (run ops s1) !! 1 = Some (set_paid 1000 (Fixture.unpaid_job 40 1)) /\
  Contracts (run ops s1) = Contracts s1.
Proof.
  apply paid_jobs_are_final.
  - vm_compute. reflexivity.
  - reflexivity.
Defined.


(** The client of the sample store deposits 50 with success, and again,
    and again: after three deposits its balance has gone from 100 to 250
    and a fourth deposit of 50 succeeds. *)
Lemma deposits_within_limit_add_up_witness :
  succeeded
    (deposit (run (replicate 3 (Deposit 1 client (Some "50"%string))) Fixture.open_work)
             1 client (Some "50"%string)).1 /\
  Job_findAll_unpaid 1 client
    (run (replicate 3 (Deposit 1 client (Some "50"%string))) Fixture.open_work)
  = Job_findAll_unpaid 1 client Fixture.open_work /\
  exists p',
    Profiles (run (replicate 3 (Deposit 1 client (Some "50"%string))) Fixture.open_work) !! 1
    = Some p' /\
    balance p' = Nat.iter 3 (fun b => fl (b + 50)) 100%Q.
Proof.
  apply (deposits_within_limit_add_up Fixture.open_work 1
           (Fixture.profile client "Harry" "Wizard" 100) (Some "50"%string) 50 3).
  - vm_compute. reflexivity.
  - vm_compute. reflexivity.
  - vm_compute. reflexivity.
Defined.

(** The client of the sample store pays job 1 at instant 1000, and the
    range from 1000 to 1000 counts it for the contractor's profession. *)
Lemma payJob_is_counted_witness :
  exists j c co,
    Jobs Fixture.open_work !! 1 = Some j /\
    Contracts Fixture.open_work !! ContractId j = Some c /\
    Profiles Fixture.open_work !! ContractorId c = Some co /\
    (profession co, set_paid 1000 j)
      ∈ profession_rows (Some 1000) (Some 1000)
          (payJob Fixture.open_work 1 client 1 1000).2 /\
    (1, set_paid 1000 j)
      ∈ client_rows (Some 1000) (Some 1000) (payJob Fixture.open_work 1 client 1 1000).2.
Proof.
  apply (payJob_is_counted Fixture.open_work 1 client 1 1000 (Some 1000) (Some 1000)).
  - vm_compute. reflexivity.
  - split; intros b [= <-]; lia.
Defined.

(** The client of the sample store is listed jobs 1, 2 and 3, and job 4
    is answered 404. *)
Lemma payJob_NotFound_iff_not_listed_witness :
  (Job_findAll_unpaid 1 client Fixture.open_work).*1.*1 = [1; 2; 3] /\
  NotFound (payJob Fixture.open_work 1 client 4 1000).1.
Proof.
  split; [vm_compute; reflexivity|].
  apply (payJob_NotFound_iff_not_listed Fixture.open_work 1
           (Fixture.profile client "Harry" "Wizard" 100) 4 1000).
  - vm_compute. reflexivity.
  - assert ((Job_findAll_unpaid 1 client Fixture.open_work).*1.*1 = [1; 2; 3]) as ->
      by (vm_compute; reflexivity).
    intros Hin. repeat (apply elem_of_cons in Hin as [Hin|Hin]; [lia|]).
    by apply elem_of_nil in Hin.
Defined.

(** ** Sample runs *)

(** Job 2 of the sample store names a contractor that has no profile: the
    client has been debited when the credit changes no row, and the
    rollback restores the store. *)
Example payJob_contractor_missing :
  payJob Fixture.open_work 1 client 2 1000 =
  (end_with 500 "Error updating contractor", Fixture.open_work).
Proof. vm_compute. reflexivity. Qed.

(** Job 3 costs 130 and the client holds 100. *)
Example payJob_insufficient :
  payJob Fixture.open_work 1 client 3 1000 =
  (end_with 409 msg_insufficient, Fixture.open_work).
Proof. vm_compute. reflexivity. Qed.

Example payJob_by_contractor :
  payJob Fixture.open_work 2 contractor 1 1000 =
  (end_with 403 "Only clients can pay for jobs", Fixture.open_work).
Proof. reflexivity. Qed.

(** A client holding 0.3 pays a job of 0.1: the balance stored is the
    double written 0.19999999999999998, and the contractor's 0.2 becomes
    0.30000000000000004. *)
Example payJob_rounds_balances :
  balance <$> Profiles (payJob (Fixture.fractions "0.3" "0.1" "0.7") 1 client 1 1000).2 !! 1
  = Some (Js.double "0.19999999999999998") /\
  balance <$> Profiles (payJob (Fixture.fractions "0.3" "0.1" "0.7") 1 client 1 1000).2 !! 2
  = Some (Js.double "0.30000000000000004").
Proof. split; vm_compute; reflexivity. Qed.

(** With unpaid jobs of 0.1 and 0.7 the engine's sum is
    0.7999999999999999, and a deposit of 0.2 is refused. *)
Example deposit_rounded_sum :
  sum_of [Js.double "0.1"; Js.double "0.7"] = Js.double "0.7999999999999999" /\
  DepositLimitExceeded
    (deposit (Fixture.fractions "0.3" "0.1" "0.7") 1 client (Some "0.2"%string)).1.
Proof. split; vm_compute; reflexivity. Qed.

(** An amount too small for a double reads as 0 and is accepted by a
    client without unpaid jobs, whose limit is 0. *)
Example deposit_underflow :
  Js.parseFloat "1e-400" = Js.Fin 0 /\
  succeeded (deposit Fixture.no_work 1 client (Some "1e-400"%string)).1 /\
  DepositLimitExceeded (deposit Fixture.no_work 1 client (Some "5e-324"%string)).1.
Proof. repeat split; vm_compute; reflexivity. Qed.

(** An amount of plus infinity is refused as above the limit; an amount
    that is not numeric and an amount of minus infinity are answered 500. *)
Example deposit_not_finite_samples :
  deposit Fixture.open_work 1 client (Some "Infinity"%string)
  = (end_with 409 msg_deposit_limit, Fixture.open_work) /\
  statusCode (deposit Fixture.open_work 1 client (Some "abc"%string)).1 = 500 /\
  statusCode (deposit Fixture.open_work 1 client None).1 = 500 /\
  statusCode (deposit Fixture.open_work 1 client (Some "-Infinity"%string)).1 = 500.
Proof. repeat split; vm_compute; reflexivity. Qed.

(** Profession A earned 150 and B earned 120; with the range ending at
    the date of B's job, A's later job of 50 is left out and B is first. *)
Example bestProfession_all_dates :
  bestProfession Fixture.paid_by_profession None None =
  send_json (JObj [("profession"%string, JStr "A")]).
Proof. vm_compute. reflexivity. Qed.

Example bestProfession_until_20 :
  bestProfession Fixture.paid_by_profession (Some 10) (Some 20) =
  send_json (JObj [("profession"%string, JStr "B")]).
Proof. vm_compute. reflexivity. Qed.

Example bestProfession_no_job :
  bestProfession Fixture.paid_by_profession (Some 31) None = end_empty 404.
Proof. vm_compute. reflexivity. Qed.

Example bestClients_default_limit :
  bestClients Fixture.paid_by_client None None None =
  inr (send_json (JArr [JObj [("id"%string, JInt 2); ("fullName"%string, JStr "Y Doe");
                              ("paid"%string, JNum 300)];
                        JObj [("id"%string, JInt 1); ("fullName"%string, JStr "X Doe");
                              ("paid"%string, JNum 200)]])).
Proof. vm_compute. reflexivity. Qed.

(** A negative limit is no limit. *)
Example bestClients_negative_limit :
  bestClients Fixture.paid_by_client None None (Some "-1"%string) =
  bestClients Fixture.paid_by_client None None None.
Proof. vm_compute. reflexivity. Qed.

(** A limit that is not a number, and one that rounds to [2 ^ 63], are
    rejected by the engine: no answer is written. *)
Example bestClients_limit_rejected :
  bestClients Fixture.paid_by_client None None (Some "abc"%string)
  = inl (Raised QueryRejected) /\
  bestClients Fixture.paid_by_client None None (Some "9223372036854775807"%string)
  = inl (Raised QueryRejected).
Proof. split; vm_compute; reflexivity. Qed.

(** ** The parsing builtins on sample strings *)

Example parseInt_2 : Js.parseInt "2" = Js.Fin 2. Proof. reflexivity. Qed.
Example parseInt_frac : Js.parseInt "1.5" = Js.Fin 1. Proof. reflexivity. Qed.
Example parseInt_neg : Js.parseInt " -3" = Js.Fin (-3). Proof. reflexivity. Qed.
Example parseInt_hex : Js.parseInt "0x1f" = Js.Fin 31. Proof. reflexivity. Qed.
Example parseInt_word : Js.parseInt "abc" = Js.NaN. Proof. reflexivity. Qed.
Example parseInt_empty : Js.parseInt "" = Js.NaN. Proof. reflexivity. Qed.
Example parseInt_rounds :
  Js.parseInt "9007199254740993" = Js.Fin 9007199254740992.
Proof. vm_compute. reflexivity. Qed.
Example parseFloat_dec : Js.parseFloat "12.50" = Js.Fin (25 # 2). Proof. reflexivity. Qed.
Example parseFloat_neg : Js.parseFloat "-10" = Js.Fin (-10 # 1). Proof. reflexivity. Qed.
Example parseFloat_exp : Js.parseFloat "1.5e2xyz" = Js.Fin (150 # 1). Proof. reflexivity. Qed.
Example parseFloat_dot : Js.parseFloat ".5" = Js.Fin (1 # 2). Proof. reflexivity. Qed.
Example parseFloat_word : Js.parseFloat "abc" = Js.NaN. Proof. reflexivity. Qed.
Example parseFloat_inf : Js.parseFloat "-Infinity" = Js.NInf. Proof. reflexivity. Qed.
Example parseFloat_tenth :
  Js.parseFloat "0.1" = Js.Fin (3602879701896397 # 36028797018963968).
Proof. vm_compute. reflexivity. Qed.
Example parseFloat_overflow : Js.parseFloat "-1e400" = Js.NInf.
Proof. vm_compute. reflexivity. Qed.
